(** * kr8s kubeconfig model: a shallow embedding of [kr8s/_config.py]

    The two classes of the module, [KubeConfig] (one kubeconfig document
    bound to a file) and [KubeConfigSet] (an ordered list of them with
    merged read projections), are embedded as Rocq modules of the same
    names.  Reads are functions into [result]; methods that mutate an
    object or touch the disk run in a state-and-exception monad whose
    state survives a raised exception, as a Python object's does. *)

From stdpp Require Import gmap strings list fin_maps.

Local Open Scope string_scope.
Local Open Scope list_scope.

(** ** Python exceptions and results *)

(** The exceptions the module can raise.  [ValueError] is the module's
    "not found" condition and carries the message of the [raise]. *)
Inductive exn :=
| ValueError (msg : string)
| TypeError (msg : string)
| IndexError
| OSError.

Inductive result (A : Type) :=
| Ok (a : A)
| Raise (e : exn).
Arguments Ok {A} a.
Arguments Raise {A} e.

Global Instance result_ret : MRet result := @Ok.
Global Instance result_bind : MBind result := λ A B f r,
  match r with
  | Ok a => f a
  | Raise e => Raise e
  end.
Global Instance result_fmap : FMap result := λ A B f r,
  match r with
  | Ok a => Ok (f a)
  | Raise e => Raise e
  end.

(** [[f(x) for x in l]] for a fallible [f]: the first exception aborts
    the comprehension. *)
Fixpoint comprehension {A B} (f : A → result B) (l : list A) : result (list B) :=
  match l with
  | [] => Ok []
  | x :: l' => y ← f x; ys ← comprehension f l'; Ok (y :: ys)
  end.

(** ** Documents *)

(** Parsed YAML that the module passes through without looking inside
    (cluster and user specs, extensions, the values of a context spec). *)
#[local] Unset Elimination Schemes.
Inductive yaml :=
| YNull
| YBool (b : bool)
| YStr (s : string)
| YSeq (items : list yaml)
| YMap (fields : list (string * yaml)).
#[local] Set Elimination Schemes.

(** An element of [clusters], [users] or [contexts]: the dict
    [{"name": n, <kind>: v}]. *)
Record entry (V : Type) := Entry { name : string; value : V }.
Arguments Entry {V} name value.
Arguments name {V} e.
Arguments value {V} e.

(** [[c["name"] for c in l]] *)
Definition names {V} (l : list (entry V)) : list string := name <$> l.

(** A context spec is a dict read with [.get("namespace", "default")] and
    written with [["namespace"] = ns]; only lookups are observed, so it
    is a finite map. *)
Abbreviation ctxspec := (gmap string yaml).

Module Doc.
(** The kubeconfig document held in [KubeConfig._raw].  The keys the
    module subscripts are fields, so a document lacking one of them (a
    [KeyError] in the source) is not a value of this type; [extensions]
    is the one key the source tests for.  A document is a tree: no entry
    is shared between two lists or two documents. *)
Record t := Make {
  apiVersion : string;
  kind : string;
  preferences : gmap string yaml;
  clusters : list (entry yaml);
  users : list (entry yaml);
  contexts : list (entry ctxspec);
  current_context : string;            (* key "current-context" *)
  extensions : option (list yaml)      (* key "extensions", optional *)
}.

Definition set_current_context (s : string) (d : t) : t :=
  Make (apiVersion d) (kind d) (preferences d) (clusters d) (users d)
       (contexts d) s (extensions d).

Definition set_contexts (cs : list (entry ctxspec)) (d : t) : t :=
  Make (apiVersion d) (kind d) (preferences d) (clusters d) (users d)
       cs (current_context d) (extensions d).
End Doc.

(** ** Insertion-ordered dict

    The dict built by [list_dict_unpack] is iterated by [dict_list_pack],
    so its key order is observable: assigning to a present key keeps the
    key's position and replaces the value, a new key goes to the end. *)
Module PyDict.
Abbreviation t V := (list (string * V)).

Fixpoint setitem {V} (k : string) (v : V) (d : t V) : t V :=
  match d with
  | [] => [(k, v)]
  | (k', v') :: d' =>
      if decide (k' = k) then (k', v) :: d' else (k', v') :: setitem k v d'
  end.

Fixpoint get {V} (k : string) (d : t V) : option V :=
  match d with
  | [] => None
  | (k', v') :: d' => if decide (k' = k) then Some v' else get k d'
  end.

Definition keys {V} (d : t V) : list string := fst <$> d.
Definition items {V} (d : t V) : list (string * V) := d.
End PyDict.

(** Modelled from the spec: [kr8s._data_utils.list_dict_unpack] is not
    part of the sources at hand.  The spec describes it as the transform
    from a list of [{name, <key>: value}] entries to a mapping name→value
    in which the last value given for a name wins; the mapping is a
    Python dict filled in list order. *)
Definition list_dict_unpack {V} (input_list : list (entry V)) : PyDict.t V :=
  foldl (λ d i, PyDict.setitem (name i) (value i) d) [] input_list.

(** Modelled from the spec: [kr8s._data_utils.dict_list_pack] is not part
    of the sources at hand.  The spec describes it as the inverse
    transform, from a mapping name→value back to the list of entries, one
    per item of the mapping in the mapping's order. *)
Definition dict_list_pack {V} (input_dict : PyDict.t V) : list (entry V) :=
  (λ kv, Entry kv.1 kv.2) <$> PyDict.items input_dict.

(** ** The disk and the trace of I/O steps *)

(** What a file holds: the YAML dump of a value of [_raw], which is a
    document or [None] (dumped as [null]).  The codec is external; a file
    is identified with the value it decodes to. *)
Abbreviation filedata := (option Doc.t).

Definition yaml_safe_dump (raw : option Doc.t) : filedata := raw.
Definition yaml_safe_load (data : filedata) : option Doc.t := data.

Inductive event :=
| SaveCalled (path : string)       (* KubeConfig.save entered *)
| LockAcquired (path : string)     (* async with self.__write_lock *)
| FileWritten (path : string) (data : filedata)
| LockReleased (path : string).

Record World := MkWorld {
  files : gmap string filedata;
  trace : list event                 (* oldest first *)
}.

(** ** State and exception monad *)

Definition M (σ A : Type) : Type := σ → result A * σ.

Definition ret {σ A} (a : A) : M σ A := λ s, (Ok a, s).
Definition bind {σ A B} (m : M σ A) (k : A → M σ B) : M σ B := λ s,
  match m s with
  | (Ok a, s') => k a s'
  | (Raise e, s') => (Raise e, s')
  end.
Definition raise {σ A} (e : exn) : M σ A := λ s, (Raise e, s).
Definition get_state {σ} : M σ σ := λ s, (Ok s, s).
Definition modify {σ} (f : σ → σ) : M σ unit := λ s, (Ok tt, f s).
(** A read that may raise, run against the current state. *)
Definition read {σ A} (f : σ → result A) : M σ A := λ s, (f s, s).

Global Instance M_ret {σ} : MRet (M σ) := λ A, @ret σ A.
Global Instance M_bind {σ} : MBind (M σ) := λ A B k m, bind m k.

(** [for x in l: body] where the body never leaves the loop early; the
    index lets the body reach the element it mutates. *)
Fixpoint for_each {σ A} (body : nat → A → M σ unit) (i : nat) (l : list A) : M σ unit :=
  match l with
  | [] => ret tt
  | x :: l' => body i x ;; for_each body (S i) l'
  end.

(** ** KubeConfig *)

Module KubeConfig.
Record t := Make { path : string; _raw : option Doc.t }.

(** A method runs on the object and the world. *)
Abbreviation obj := (t * World)%type.

(** The positional arguments of a constructor call. *)
Inductive args :=
| Args1 (kubeconfig : string * option Doc.t)   (* KubeConfig(kubeconfig) *)
| Args2 (path : string) (raw : option Doc.t).  (* KubeConfig(path, raw) *)

(** [def __init__(self, path, raw)]: both parameters are required. *)
Definition __init__ (a : args) : result t :=
  match a with
  | Args2 path raw => Ok (Make path raw)
  | Args1 _ =>
      Raise (TypeError "__init__() missing 1 required positional argument: 'raw'")
  end.

(** Subscripting [self._raw]; [None] is not subscriptable. *)
Definition raw_field {A} (f : Doc.t → A) (self : t) : result A :=
  match _raw self with
  | Some d => Ok (f d)
  | None => Raise (TypeError "'NoneType' object is not subscriptable")
  end.

Definition emit (e : event) : M obj unit :=
  modify (λ '(self, w), (self, MkWorld (files w) (trace w ++ [e]))).

Definition write_file (p : string) (data : filedata) : M obj unit :=
  modify (λ '(self, w), (self, MkWorld (<[p := data]> (files w)) (trace w ++ [FileWritten p data]))).

Definition update_raw (f : Doc.t → Doc.t) : M obj unit :=
  modify (λ '(self, w), (Make (path self) (f <$> _raw self), w)).

(** [__await__]: loads the file when [_raw] is falsy. *)
Definition __await__ : M obj unit :=
  '(self, w) ← get_state;
  if bool_decide (_raw self = None) then
    match files w !! path self with
    | Some data => modify (λ '(self, w), (Make (path self) (yaml_safe_load data), w))
    | None => raise OSError
    end
  else ret tt.

Definition save : M obj unit :=
  '(self, _) ← get_state;
  emit (SaveCalled (path self));;
  if bool_decide (_raw self = None) then         (* if not self._raw: *)
    emit (LockAcquired (path self));;
    write_file (path self) (yaml_safe_dump (_raw self));;
    emit (LockReleased (path self))
  else ret tt.

Definition raw (self : t) : option Doc.t := _raw self.
Definition current_context : t → result string := raw_field Doc.current_context.
Definition preferences : t → result (gmap string yaml) := raw_field Doc.preferences.
Definition clusters : t → result (list (entry yaml)) := raw_field Doc.clusters.
Definition users : t → result (list (entry yaml)) := raw_field Doc.users.
Definition contexts : t → result (list (entry ctxspec)) := raw_field Doc.contexts.
Definition extensions (self : t) : result (list yaml) :=
  raw_field (λ d, default [] (Doc.extensions d)) self.

(** The lookup loop shared by [get_context], [get_cluster], [get_user]. *)
Fixpoint lookup_by_name {V} (what n : string) (l : list (entry V)) : result V :=
  match l with
  | [] => Raise (ValueError (what +:+ " " +:+ n +:+ " not found"))
  | e :: l' => if decide (name e = n) then Ok (value e) else lookup_by_name what n l'
  end.

Definition get_context (context_name : string) (self : t) : result ctxspec :=
  cs ← contexts self; lookup_by_name "Context" context_name cs.
Definition get_cluster (cluster_name : string) (self : t) : result yaml :=
  cs ← clusters self; lookup_by_name "Cluster" cluster_name cs.
Definition get_user (user_name : string) (self : t) : result yaml :=
  us ← users self; lookup_by_name "User" user_name us.

Definition current_namespace (self : t) : result yaml :=
  cur ← current_context self;
  ctx ← get_context cur self;
  Ok (default (YStr "default") (ctx !! "namespace")).

(** [context["context"]["namespace"] = namespace] on the [i]-th entry. *)
Definition set_namespace (i : nat) (namespace : string) : Doc.t → Doc.t :=
  λ d, Doc.set_contexts
         (alter (λ c, Entry (name c) (<["namespace" := YStr namespace]> (value c))) i
                (Doc.contexts d)) d.

(** [context["name"] = new] on the [i]-th entry. *)
Definition set_name (i : nat) (new : string) : Doc.t → Doc.t :=
  λ d, Doc.set_contexts
         (alter (λ c, Entry new (value c)) i (Doc.contexts d)) d.

Definition use_namespace (namespace : string) : M obj unit :=
  cs ← read (λ s, contexts s.1);
  for_each (λ i context,
      cur ← read (λ s, current_context s.1);
      if decide (name context = cur)
      then update_raw (set_namespace i namespace)
      else ret tt) 0 cs;;
  save.

Definition use_context (context : string) (allow_unknown : bool) : M obj unit :=
  (if allow_unknown then ret tt
   else
     cs ← read (λ s, contexts s.1);
     if bool_decide (context ∈ names cs) then ret tt
     else raise (ValueError ("Context " +:+ context +:+ " not found")));;
  update_raw (Doc.set_current_context context);;
  save.

Fixpoint rename_context_loop (old new : string) (i : nat)
    (cs : list (entry ctxspec)) : M obj unit :=
  match cs with
  | [] => raise (ValueError ("Context " +:+ old +:+ " not found"))
  | context :: cs' =>
      if decide (name context = old) then
        update_raw (set_name i new);;
        cur ← read (λ s, current_context s.1);
        (if decide (cur = old) then use_context new false else ret tt);;
        save
      else rename_context_loop old new (S i) cs'
  end.

Definition rename_context (old new : string) : M obj unit :=
  cs ← read (λ s, contexts s.1);
  rename_context_loop old new 0 cs.
End KubeConfig.

(** ** KubeConfigSet *)

Module KubeConfigSet.
(** The members are distinct objects, each owning its document, so the
    list holds them by value and a member is updated at its index. *)
Record t := Make { _configs : list KubeConfig.t }.

Abbreviation obj := (t * World)%type.

(** [def __init__(self, *kubeconfigs)].  [kubeconfigs] is the tuple of
    the positional arguments, never a dict, so the [else] branch runs:
    [[KubeConfig(kubeconfig) for kubeconfig in kubeconfigs]]. *)
Definition __init__ (kubeconfigs : list (string * option Doc.t)) : result t :=
  Make <$> comprehension
             (λ kubeconfig, KubeConfig.__init__ (KubeConfig.Args1 kubeconfig))
             kubeconfigs.

(** [self._configs[0]] *)
Definition first (self : t) : result KubeConfig.t :=
  match _configs self with
  | config :: _ => Ok config
  | [] => Raise IndexError
  end.

(** Runs a method of the [i]-th member on that member and the world. *)
Definition on_member {A} (i : nat) (m : M KubeConfig.obj A) : M obj A :=
  λ '(self, w),
    match _configs self !! i with
    | Some config =>
        let '(r, (config', w')) := m (config, w) in
        (r, (Make (<[i := config']> (_configs self)), w'))
    | None => (Raise IndexError, (self, w))
    end.

Definition __await__ : M obj unit :=
  '(self, _) ← get_state;
  for_each (λ i _, on_member i KubeConfig.__await__) 0 (_configs self).

Definition save : M obj unit :=
  '(self, _) ← get_state;
  for_each (λ i _, on_member i KubeConfig.save) 0 (_configs self).

Definition current_context (self : t) : result string :=
  config ← first self; KubeConfig.current_context config.

(** The [for] loop of [get_path]: the path of the first member that
    lists [context], [None] when the loop runs to its end. *)
Fixpoint get_path_loop (context : string) (configs : list KubeConfig.t)
    : result (option string) :=
  match configs with
  | [] => Ok None
  | config :: configs' =>
      cs ← KubeConfig.contexts config;
      if bool_decide (context ∈ names cs) then Ok (Some (KubeConfig.path config))
      else get_path_loop context configs'
  end.

(** Truth value of an [Optional[str]]: [None] and [""] are falsy. *)
Definition truthy (context : option string) : bool :=
  match context with
  | None => false
  | Some s => negb (bool_decide (s = ""))
  end.

Definition get_path (context : option string) (self : t) : result string :=
  context ← (if truthy context then Ok (default "" context)
             else current_context self);
  found ← (if truthy (Some context) then get_path_loop context (_configs self)
           else Ok None);
  match found with
  | Some p => Ok p
  | None => KubeConfig.path <$> first self
  end.

Definition path (self : t) : result string := get_path None self.

Definition preferences (self : t) : result (gmap string yaml) :=
  config ← first self; KubeConfig.preferences config.

(** [[x for config in self._configs for x in config.<field>]] *)
Definition gather {A} (field : KubeConfig.t → result (list A)) (self : t)
    : result (list A) :=
  ls ← comprehension field (_configs self); Ok (concat ls).

Definition clusters (self : t) : result (list (entry yaml)) :=
  clusters ← gather KubeConfig.clusters self;
  Ok (dict_list_pack (list_dict_unpack clusters)).

Definition users (self : t) : result (list (entry yaml)) :=
  users ← gather KubeConfig.users self;
  Ok (dict_list_pack (list_dict_unpack users)).

Definition contexts (self : t) : result (list (entry ctxspec)) :=
  contexts ← gather KubeConfig.contexts self;
  Ok (dict_list_pack (list_dict_unpack contexts)).

Definition extensions (self : t) : result (list yaml) :=
  gather KubeConfig.extensions self.

Definition raw (self : t) : result Doc.t :=
  preferences ← preferences self;
  clusters ← clusters self;
  users ← users self;
  contexts ← contexts self;
  current_context ← current_context self;
  extensions ← extensions self;
  Ok (Doc.Make "v1" "Config" preferences clusters users contexts current_context
        (if bool_decide (extensions = []) then None else Some extensions)).

Definition get_context (context_name : string) (self : t) : result ctxspec :=
  cs ← contexts self; KubeConfig.lookup_by_name "Context" context_name cs.
Definition get_cluster (cluster_name : string) (self : t) : result yaml :=
  cs ← clusters self; KubeConfig.lookup_by_name "Cluster" cluster_name cs.
Definition get_user (user_name : string) (self : t) : result yaml :=
  us ← users self; KubeConfig.lookup_by_name "User" user_name us.

Definition current_namespace (self : t) : result yaml :=
  cur ← current_context self;
  ctx ← get_context cur self;
  Ok (default (YStr "default") (ctx !! "namespace")).

Definition use_namespace (namespace : string) : M obj unit :=
  '(self, _) ← get_state;
  for_each (λ i _,
      cs ← on_member i (read (λ s, KubeConfig.contexts s.1));
      for_each (λ j context,
          cur ← read (λ s, current_context s.1);
          if decide (name context = cur)
          then on_member i (KubeConfig.update_raw (KubeConfig.set_namespace j namespace))
          else mret tt) 0 cs;;
      on_member i KubeConfig.save) 0 (_configs self).

Definition use_context (context : string) : M obj unit :=
  cs ← read (λ s, contexts s.1);
  if bool_decide (context ∈ names cs)
  then on_member 0 (KubeConfig.use_context context true)
  else raise (ValueError ("Context " +:+ context +:+ " not found")).

Fixpoint rename_context_loop (old new : string) (i : nat)
    (configs : list KubeConfig.t) : M obj unit :=
  match configs with
  | [] => raise (ValueError ("Context " +:+ old +:+ " not found"))
  | _ :: configs' =>
      cs ← on_member i (read (λ s, KubeConfig.contexts s.1));
      if bool_decide (old ∈ names cs) then
        on_member i (KubeConfig.rename_context old new);;
        cur ← read (λ s, current_context s.1);
        if decide (cur = old) then use_context new else mret tt
      else rename_context_loop old new (S i) configs'
  end.

Definition rename_context (old new : string) : M obj unit :=
  '(self, _) ← get_state;
  rename_context_loop old new 0 (_configs self).
End KubeConfigSet.

(** ** Loaded configs and reference definitions *)

(** A member whose content is present, and the set of such members in
    the given order: the state every accessor expects. *)
Definition loaded (pd : string * Doc.t) : KubeConfig.t :=
  KubeConfig.Make pd.1 (Some pd.2).

Definition config_set (docs : list (string * Doc.t)) : KubeConfigSet.t :=
  KubeConfigSet.Make (loaded <$> docs).

(** The merged projection of a field over loaded members. *)
Definition merged {V} (field : Doc.t → list (entry V)) (docs : list (string * Doc.t))
    : list (entry V) :=
  dict_list_pack (list_dict_unpack (concat ((λ pd, field pd.2) <$> docs))).

(** Routing as the documentation of [get_path] words it: the path of the
    first document whose contexts list has an entry named [n]. *)
Definition defines_context (n : string) (pd : string * Doc.t) : bool :=
  bool_decide (n ∈ names (Doc.contexts pd.2)).

Definition route (n : string) (docs : list (string * Doc.t)) : option string :=
  fst <$> find (defines_context n) docs.

(** The value of the last entry of [l] named [n], if any. *)
Fixpoint last_value {V} (n : string) (l : list (entry V)) : option V :=
  match l with
  | [] => None
  | e :: l' =>
      match last_value n l' with
      | Some v => Some v
      | None => if decide (name e = n) then Some (value e) else None
      end
  end.

(** The world after one more step is recorded. *)
Definition logged (e : event) (w : World) : World :=
  MkWorld (files w) (trace w ++ [e]).

(** What [use_namespace] does to one context entry: the entry named as
    the current context gets its [namespace] key set, any other entry is
    left alone. *)
Definition with_namespace (ns : string) (c : entry ctxspec) : entry ctxspec :=
  Entry (name c) (<["namespace" := YStr ns]> (value c)).

Definition mark_namespace (cur ns : string) (c : entry ctxspec) : entry ctxspec :=
  if decide (name c = cur) then with_namespace ns c else c.

(** The document and the world after a successful [rename_context]:
    [cs] is the contexts list with the entry renamed; when the old name
    was current, the current context follows and [save] runs twice. *)
Definition renamed_doc (old new : string) (cs : list (entry ctxspec)) (d : Doc.t) : Doc.t :=
  let d1 := Doc.set_contexts cs d in
  if decide (Doc.current_context d = old) then Doc.set_current_context new d1 else d1.

Definition renamed_world (old : string) (p : string) (d : Doc.t) (w : World) : World :=
  if decide (Doc.current_context d = old)
  then logged (SaveCalled p) (logged (SaveCalled p) w)
  else logged (SaveCalled p) w.

(** The merge of the preferences of all members as the spec words the
    merge of mappings: key by key, the value of the last member that has
    the key. *)
Definition preferences_of_all (docs : list (string * Doc.t)) : gmap string yaml :=
  foldl (λ acc pd, Doc.preferences pd.2 ∪ acc) ∅ docs.

(** The extensions of all members, in member order. *)
Definition extensions_of_all (docs : list (string * Doc.t)) : list yaml :=
  concat ((λ pd, default [] (Doc.extensions pd.2)) <$> docs).

(** What the set's [use_namespace] does to one member, and the world
    after every member's [save] has been entered in order. *)
Definition mark_doc (cur ns : string) (pd : string * Doc.t) : string * Doc.t :=
  (pd.1, Doc.set_contexts (mark_namespace cur ns <$> Doc.contexts pd.2) pd.2).

Definition saved_all (docs : list (string * Doc.t)) (w : World) : World :=
  foldl (λ w pd, logged (SaveCalled pd.1) w) w docs.

(** The current context a set of loaded members reports: the first
    member's. *)
Definition set_current (docs : list (string * Doc.t)) : string :=
  from_option (λ pd, Doc.current_context pd.2) "" (head docs).

(** The contexts list with its first entry named [old] renamed. *)
Fixpoint rename_first (old new : string) (cs : list (entry ctxspec)) : list (entry ctxspec) :=
  match cs with
  | [] => []
  | c :: cs' =>
      if decide (name c = old) then Entry new (value c) :: cs'
      else c :: rename_first old new cs'
  end.

(** A member after it has been awaited against the disk of [w]: content
    already present is kept, absent content is read from the file at the
    member's path. *)
Definition awaited (w : World) (k : KubeConfig.t) : KubeConfig.t :=
  match KubeConfig._raw k with
  | Some _ => k
  | None =>
      KubeConfig.Make (KubeConfig.path k)
        (default None (yaml_safe_load <$> files w !! KubeConfig.path k))
  end.

(** A member that can be awaited without an I/O error: it has content,
    or its file exists. *)
Definition loadable (w : World) (k : KubeConfig.t) : Prop :=
  is_Some (KubeConfig._raw k) ∨ is_Some (files w !! KubeConfig.path k).

(** ** Sample documents

    Small kubeconfig documents on which the properties below are
    evaluated. *)
Module Sample.
Definition binding (cluster user : string) : ctxspec :=
  {[ "cluster" := YStr cluster; "user" := YStr user ]}.

(** Document A: cluster [c1], context [ctx-a], which is current. *)
Definition doc_a : Doc.t :=
  Doc.Make "v1" "Config" ∅
    [Entry "c1" (YStr "https://a.example")]
    [Entry "admin" (YStr "token-a")]
    [Entry "ctx-a" (binding "c1" "admin")]
    "ctx-a" None.

(** Document B: cluster [c1] again with another spec, context [ctx-b]. *)
Definition doc_b : Doc.t :=
  Doc.Make "v1" "Config" {[ "colors" := YBool true ]}
    [Entry "c1" (YStr "https://b.example")]
    [Entry "dev" (YStr "token-b")]
    [Entry "ctx-b" (binding "c1" "dev")]
    "ctx-b" (Some [YStr "ext-b"]).

(** Document A after its current context has been switched in memory. *)
Definition doc_a_switched : Doc.t := Doc.set_current_context "ctx-b" doc_a.

(** A document that lists the cluster name [c1] twice. *)
Definition doc_dup : Doc.t :=
  Doc.Make "v1" "Config" ∅
    [Entry "c1" (YStr "https://old.example"); Entry "c1" (YStr "https://new.example")]
    [] [] "" None.

(** A document whose only context has the empty name. *)
Definition doc_unnamed : Doc.t :=
  Doc.Make "v1" "Config" ∅ [] [] [Entry "" (binding "c1" "admin")] "" None.

(** A document whose current context is not among its contexts. *)
Definition doc_dangling : Doc.t := Doc.set_current_context "gone" doc_a.

(** The disk holding document A at [a.yaml], nothing recorded yet. *)
Definition disk_a : World := MkWorld {[ "a.yaml" := Some doc_a ]} [].
End Sample.

(** * Properties *)

(** ** Reads on loaded members *)

Lemma comprehension_loaded {A} (f : KubeConfig.t → result A) (g : Doc.t → A) docs :
  (∀ pd, f (loaded pd) = Ok (g pd.2)) →
  comprehension f (loaded <$> docs) = Ok ((λ pd, g pd.2) <$> docs).
Proof.
  intros Hf. induction docs as [|pd docs IH]; [done|].
  cbn [fmap list_fmap comprehension]. rewrite Hf. cbn. rewrite IH. done.
Qed.

Lemma gather_loaded {A} (field : Doc.t → list A) docs :
  KubeConfigSet.gather (KubeConfig.raw_field field) (config_set docs)
  = Ok (concat ((λ pd, field pd.2) <$> docs)).
Proof.
  unfold KubeConfigSet.gather, config_set. cbn [KubeConfigSet._configs].
  rewrite (comprehension_loaded _ field); [done|]. by intros [p d].
Qed.

Lemma clusters_loaded docs :
  KubeConfigSet.clusters (config_set docs) = Ok (merged Doc.clusters docs).
Proof.
  unfold KubeConfigSet.clusters, KubeConfig.clusters. by rewrite gather_loaded.
Qed.

Lemma users_loaded docs :
  KubeConfigSet.users (config_set docs) = Ok (merged Doc.users docs).
Proof.
  unfold KubeConfigSet.users, KubeConfig.users. by rewrite gather_loaded.
Qed.

Lemma contexts_loaded docs :
  KubeConfigSet.contexts (config_set docs) = Ok (merged Doc.contexts docs).
Proof.
  unfold KubeConfigSet.contexts, KubeConfig.contexts. by rewrite gather_loaded.
Qed.

Lemma extensions_loaded docs :
  KubeConfigSet.extensions (config_set docs) = Ok (extensions_of_all docs).
Proof.
  unfold KubeConfigSet.extensions, KubeConfig.extensions.
  apply (gather_loaded (λ d, default [] (Doc.extensions d))).
Qed.

Lemma current_context_loaded pd docs :
  KubeConfigSet.current_context (config_set (pd :: docs)) = Ok (Doc.current_context pd.2).
Proof. done. Qed.

Lemma get_path_loop_loaded n docs :
  KubeConfigSet.get_path_loop n (loaded <$> docs) = Ok (route n docs).
Proof.
  unfold route. induction docs as [|[p d] docs IH]; [done|].
  cbn [fmap list_fmap KubeConfigSet.get_path_loop find].
  unfold defines_context at 1. cbn.
  destruct (bool_decide (n ∈ names (Doc.contexts d))); [done|]. apply IH.
Qed.

(** ** The merge utility: unpack to a dict, pack back to a list *)

Section merge.
Context {V : Type}.
Implicit Types (d : list (string * V)) (l : list (entry V)) (k n : string) (v : V).

Lemma keys_setitem k v d :
  (PyDict.setitem k v d).*1 = if decide (k ∈ d.*1) then d.*1 else d.*1 ++ [k].
Proof.
  induction d as [|[k' v'] d IH]; cbn.
  - rewrite decide_False; [done|]. apply not_elem_of_nil.
  - destruct (decide (k' = k)) as [->|Hne]; cbn.
    + rewrite decide_True; [done|]. left.
    + rewrite IH.
      destruct (decide (k ∈ d.*1)) as [Hin|Hnin].
      * rewrite decide_True; [done|]. by right.
      * rewrite decide_False; [done|]. intros Hin.
        apply elem_of_cons in Hin as [?|?]; [congruence|done].
Qed.

Lemma get_setitem k k' v d :
  PyDict.get k' (PyDict.setitem k v d)
  = if decide (k = k') then Some v else PyDict.get k' d.
Proof.
  induction d as [|[k0 v0] d IH]; cbn.
  - destruct (decide (k = k')); done.
  - destruct (decide (k0 = k)) as [->|Hne]; cbn.
    + destruct (decide (k = k')); done.
    + rewrite IH. destruct (decide (k0 = k')) as [->|?]; [|done].
      rewrite decide_False; [done|congruence].
Qed.

Lemma NoDup_keys_setitem k v d :
  NoDup (d.*1) → NoDup ((PyDict.setitem k v d).*1).
Proof.
  intros Hd. rewrite keys_setitem. case_decide; [done|].
  apply NoDup_app. split_and!; [done| |apply NoDup_singleton].
  intros x Hx Hx'. apply list_elem_of_singleton in Hx' as ->. done.
Qed.

Lemma NoDup_keys_foldl d l :
  NoDup (d.*1) →
  NoDup ((foldl (λ d i, PyDict.setitem (name i) (value i) d) d l).*1).
Proof.
  revert d. induction l as [|e l IH]; intros d Hd; cbn; [done|].
  apply IH, NoDup_keys_setitem, Hd.
Qed.

Lemma get_foldl d l n :
  PyDict.get n (foldl (λ d i, PyDict.setitem (name i) (value i) d) d l)
  = match last_value n l with Some v => Some v | None => PyDict.get n d end.
Proof.
  revert d. induction l as [|e l IH]; intros d; cbn; [done|].
  rewrite IH, get_setitem. destruct (last_value n l); [done|]. by case_decide.
Qed.

Lemma get_None_keys n d : PyDict.get n d = None ↔ n ∉ d.*1.
Proof.
  induction d as [|[k v] d IH]; cbn.
  - split; [intros _; apply not_elem_of_nil|done].
  - rewrite not_elem_of_cons.
    destruct (decide (k = n)) as [->|Hne].
    + split; [done|]. by intros [? _].
    + rewrite IH. split; [by split|by intros [_ ?]].
Qed.

Lemma filter_key_get n d :
  NoDup (d.*1) →
  filter (λ kv, kv.1 = n) d
  = match PyDict.get n d with Some v => [(n, v)] | None => [] end.
Proof.
  induction d as [|[k v] d IH]; intros Hd; [done|].
  apply NoDup_cons in Hd as [Hk Hd].
  rewrite filter_cons. cbn. destruct (decide (k = n)) as [->|Hne].
  - f_equal. rewrite IH by done. cbn in Hk. apply get_None_keys in Hk. by rewrite Hk.
  - by apply IH.
Qed.

Lemma filter_pack n d :
  filter (λ e, name e = n) (dict_list_pack d)
  = dict_list_pack (filter (λ kv, kv.1 = n) d).
Proof.
  unfold dict_list_pack, PyDict.items.
  induction d as [|[k v] d IH]; [done|].
  rewrite fmap_cons, !filter_cons. cbn. destruct (decide (k = n)); cbn; by rewrite IH.
Qed.

(** Exactly one entry per name survives the merge: the last one given. *)
Lemma filter_merge n l :
  filter (λ e, name e = n) (dict_list_pack (list_dict_unpack l))
  = match last_value n l with Some v => [Entry n v] | None => [] end.
Proof.
  rewrite filter_pack, filter_key_get.
  - unfold list_dict_unpack. rewrite get_foldl. by destruct (last_value n l).
  - apply NoDup_keys_foldl. constructor.
Qed.

Lemma last_value_app n l1 l2 :
  last_value n (l1 ++ l2)
  = match last_value n l2 with Some v => Some v | None => last_value n l1 end.
Proof.
  induction l1 as [|e l1 IH]; cbn; [by destruct (last_value n l2)|].
  rewrite IH. destruct (last_value n l2); done.
Qed.

Lemma last_value_elem n v l : last_value n l = Some v → Entry n v ∈ l.
Proof.
  induction l as [|[k v'] l IH]; cbn; [done|].
  destruct (last_value n l).
  - intros [= <-]. right. by apply IH.
  - case_decide; [|done]. intros [= <-]. subst. left.
Qed.

Lemma last_value_is_Some n l : n ∈ names l → is_Some (last_value n l).
Proof.
  induction l as [|e l IH]; cbn.
  - intros H. by apply elem_of_nil in H.
  - intros H. apply elem_of_cons in H as [->|H].
    + destruct (last_value _ l); [eauto|]. rewrite decide_True; eauto.
    + destruct (IH H) as [v ->]. eauto.
Qed.

Lemma last_value_None n l : n ∉ names l → last_value n l = None.
Proof.
  intros H. destruct (last_value n l) as [v|] eqn:E; [|done].
  apply last_value_elem in E. exfalso. apply H.
  unfold names. apply list_elem_of_fmap. by exists (Entry n v).
Qed.

Lemma setitem_fresh k v d : k ∉ d.*1 → PyDict.setitem k v d = d ++ [(k, v)].
Proof.
  induction d as [|[k' v'] d IH]; cbn; [done|].
  intros [Hne Hk]%not_elem_of_cons.
  rewrite decide_False by congruence. by rewrite IH.
Qed.

Lemma foldl_fresh d l :
  NoDup (d.*1 ++ names l) →
  foldl (λ d i, PyDict.setitem (name i) (value i) d) d l
  = d ++ ((λ e, (name e, value e)) <$> l).
Proof.
  revert d. induction l as [|e l IH]; intros d Hd; cbn.
  - by rewrite app_nil_r.
  - cbn in Hd. apply NoDup_app in Hd as (Hd & Hdl & Hl).
    apply NoDup_cons in Hl as [He Hl].
    rewrite setitem_fresh.
    + rewrite IH, <-app_assoc; [done|].
      rewrite fmap_app. cbn. rewrite <-app_assoc. cbn.
      apply NoDup_app. split_and!; [done| |by constructor].
      intros x Hx Hx'. eapply Hdl; [done|]. done.
    + intros Hin. eapply Hdl; [done|]. left.
Qed.

(** On a list without repeated names the merge changes nothing. *)
Lemma pack_unpack_NoDup l :
  NoDup (names l) → dict_list_pack (list_dict_unpack l) = l.
Proof.
  intros Hl. unfold list_dict_unpack. rewrite foldl_fresh by done.
  unfold dict_list_pack, PyDict.items. cbn. rewrite <-list_fmap_compose.
  rewrite <-(list_fmap_id l) at 2. apply list_fmap_ext. by intros _ [n v] _.
Qed.

Lemma dict_ext (d1 d2 : list (string * V)) :
  NoDup (d1.*1) → d1.*1 = d2.*1 →
  (∀ n, PyDict.get n d1 = PyDict.get n d2) → d1 = d2.
Proof.
  revert d2. induction d1 as [|[k v] d1 IH]; intros [|[k2 v2] d2] Hnd Hk Hg;
    try done.
  cbn in Hk. injection Hk as <- Hk.
  apply NoDup_cons in Hnd as [Hk1 Hnd]. cbn in Hk1.
  pose proof (Hg k) as Hgk. cbn in Hgk. rewrite !decide_True in Hgk by done.
  injection Hgk as <-. f_equal. apply IH; [done..|].
  intros n. specialize (Hg n). cbn in Hg.
  destruct (decide (k = n)) as [<-|Hne]; [|done].
  assert (k ∉ d2.*1) as Hk2 by (by rewrite <-Hk).
  apply get_None_keys in Hk1, Hk2. congruence.
Qed.

Lemma keys_foldl_present d l :
  (∀ n, n ∈ names l → n ∈ d.*1) →
  (foldl (λ d i, PyDict.setitem (name i) (value i) d) d l).*1 = d.*1.
Proof.
  revert d. induction l as [|e l IH]; intros d Hin; cbn; [done|].
  rewrite IH.
  - rewrite keys_setitem, decide_True; [done|]. apply Hin. left.
  - intros n Hn. rewrite keys_setitem, decide_True by (apply Hin; left).
    apply Hin. by right.
Qed.

Lemma keys_unpack_names d l n :
  n ∈ names l →
  n ∈ (foldl (λ d i, PyDict.setitem (name i) (value i) d) d l).*1.
Proof.
  intros Hn. destruct (last_value_is_Some _ _ Hn) as [v Hv].
  destruct (decide (n ∈ (foldl (λ d i, PyDict.setitem (name i) (value i) d) d l).*1))
    as [|Hnot]; [done|].
  apply get_None_keys in Hnot. rewrite get_foldl, Hv in Hnot. done.
Qed.

(** Feeding the same entries a second time rebuilds the same dict. *)
Lemma unpack_twice l : list_dict_unpack (l ++ l) = list_dict_unpack l.
Proof.
  unfold list_dict_unpack. rewrite foldl_app.
  symmetry. apply dict_ext.
  - apply NoDup_keys_foldl. constructor.
  - symmetry. apply keys_foldl_present. intros n. apply keys_unpack_names.
  - intros n. rewrite !get_foldl. by destruct (last_value n l).
Qed.
End merge.

(** ** Persistence *)

(** Runs the monadic steps of a method on the state at hand. *)
Ltac run_monad :=
  unfold mbind, M_bind, mret, M_ret, bind, ret, raise, get_state, modify, read;
  cbn [fst snd].

(** With content present, [save] records that it ran and writes nothing. *)
Lemma save_loaded pd w :
  KubeConfig.save (loaded pd, w) = (Ok (), (loaded pd, logged (SaveCalled pd.1) w)).
Proof. by destruct pd. Qed.

(** Awaiting a config whose content is present changes nothing. *)
Lemma await_loaded pd w :
  KubeConfig.__await__ (loaded pd, w) = (Ok (), (loaded pd, w)).
Proof. by destruct pd. Qed.

(** Awaiting a config without content loads what the file at its path
    holds. *)
Lemma await_unloaded p data w :
  files w !! p = Some data →
  KubeConfig.__await__ (KubeConfig.Make p None, w)
  = (Ok (), (KubeConfig.Make p (yaml_safe_load data), w)).
Proof.
  intros Hp. unfold KubeConfig.__await__. run_monad. cbn. by rewrite Hp.
Qed.


(** C1. [save] is meant to leave on disk the serialization of the content
    held in memory.  Evaluated on a config whose content is loaded and
    differs from the file ([a.yaml] holds document A, memory holds A with
    the current context switched): [save] returns normally, never takes
    the lock, and the file still holds the old document, not the dump of
    the content in memory. *)
Theorem save_loaded_leaves_file_stale :
  let self := KubeConfig.Make "a.yaml" (Some Sample.doc_a_switched) in
  ∃ w', KubeConfig.save (self, Sample.disk_a) = (Ok (), (self, w'))
        ∧ trace w' = [SaveCalled "a.yaml"]
        ∧ files w' !! "a.yaml" = Some (Some Sample.doc_a)
        ∧ files w' !! "a.yaml" ≠ Some (yaml_safe_dump (KubeConfig._raw self)).
Proof.
  cbn zeta. eexists. split; [apply (save_loaded ("a.yaml", _))|].
  split; [done|]. cbn [logged files Sample.disk_a].
  rewrite lookup_singleton_eq. split; [done|]. intros [=].
Qed.

(** ** Construction *)

(** C2. Constructing a set from a non-empty sequence of (path, content)
    pairs is meant to yield one member per pair.  Each pair is handed to
    [KubeConfig] as a single positional argument, while its [__init__]
    requires two ([path] and [raw]), so the first pair already raises
    [TypeError] and no set is built. *)
Theorem init_nonempty_raises_TypeError kubeconfig rest :
  KubeConfigSet.__init__ (kubeconfig :: rest)
  = Raise (TypeError "__init__() missing 1 required positional argument: 'raw'").
Proof. done. Qed.

(** Only the empty call builds a set, and it has no members. *)
Lemma init_empty : KubeConfigSet.__init__ [] = Ok (KubeConfigSet.Make []).
Proof. done. Qed.

(** ** Merged projections *)

(** C3. In a set of two loaded configs that both define cluster [n], the
    merged [clusters] list has exactly one entry named [n], and it carries
    the spec that the second config gives to [n]. *)
Theorem merged_clusters_last_wins pA dA pB dB n sA sB :
  Entry n sA ∈ Doc.clusters dA →
  Entry n sB ∈ Doc.clusters dB →
  (∀ s, Entry n s ∈ Doc.clusters dB → s = sB) →
  ∃ cl, KubeConfigSet.clusters (config_set [(pA, dA); (pB, dB)]) = Ok cl
        ∧ filter (λ e, name e = n) cl = [Entry n sB].
Proof.
  intros _ HB Huniq. rewrite clusters_loaded. eexists. split; [done|].
  unfold merged. cbn [fmap list_fmap concat snd]. rewrite app_nil_r.
  rewrite filter_merge, last_value_app.
  assert (n ∈ names (Doc.clusters dB)) as Hn.
  { unfold names. apply list_elem_of_fmap. by exists (Entry n sB). }
  destruct (last_value_is_Some _ _ Hn) as [v Hv]. rewrite Hv.
  apply last_value_elem, Huniq in Hv. by subst.
Qed.

Lemma merged_clusters_last_wins_witness :
  ∃ cl, KubeConfigSet.clusters
          (config_set [("a.yaml", Sample.doc_a); ("b.yaml", Sample.doc_b)]) = Ok cl
        ∧ filter (λ e, name e = "c1") cl = [Entry "c1" (YStr "https://b.example")].
Proof.
  apply (merged_clusters_last_wins "a.yaml" Sample.doc_a "b.yaml" Sample.doc_b
           "c1" (YStr "https://a.example") (YStr "https://b.example")).
  - cbn. apply list_elem_of_here.
  - cbn. apply list_elem_of_here.
  - cbn. intros s Hs. apply list_elem_of_singleton in Hs. by injection Hs.
Defined.

(** Merging the same document twice gives the merge of the document
    alone, whatever its lists hold. *)
Lemma merged_twice {V} (field : Doc.t → list (entry V)) p1 p2 d :
  merged field [(p1, d); (p2, d)] = merged field [(p1, d)].
Proof.
  unfold merged. cbn [fmap list_fmap concat snd]. rewrite !app_nil_r.
  by rewrite unpack_twice.
Qed.

Lemma merged_single_NoDup {V} (field : Doc.t → list (entry V)) p d :
  NoDup (names (field d)) → merged field [(p, d)] = field d.
Proof.
  intros Hd. unfold merged. cbn [fmap list_fmap concat snd]. rewrite app_nil_r.
  by apply pack_unpack_NoDup.
Qed.

(** The statement of C4 without a condition on names fails: a document
    that lists cluster [c1] twice keeps both entries in its own
    [clusters], while the set built from it twice keeps one. *)
Lemma merged_twice_counterexample :
  KubeConfigSet.clusters
    (config_set [("a.yaml", Sample.doc_dup); ("a.yaml", Sample.doc_dup)])
  ≠ KubeConfig.clusters (loaded ("a.yaml", Sample.doc_dup)).
Proof. vm_compute. intros [=]. Qed.

(** C4 (amended). For a document whose clusters, users and contexts each
    have pairwise distinct names, the merged lists of the set built from
    the document twice equal the document's own lists. *)
Theorem merged_twice_distinct_names p1 p2 d :
  NoDup (names (Doc.clusters d)) →
  NoDup (names (Doc.users d)) →
  NoDup (names (Doc.contexts d)) →
  KubeConfigSet.clusters (config_set [(p1, d); (p2, d)])
    = KubeConfig.clusters (loaded (p1, d))
  ∧ KubeConfigSet.users (config_set [(p1, d); (p2, d)])
    = KubeConfig.users (loaded (p1, d))
  ∧ KubeConfigSet.contexts (config_set [(p1, d); (p2, d)])
    = KubeConfig.contexts (loaded (p1, d)).
Proof.
  intros Hc Hu Hx.
  rewrite clusters_loaded, users_loaded, contexts_loaded, !merged_twice.
  rewrite !merged_single_NoDup by done. done.
Qed.

Lemma merged_twice_distinct_names_witness :
  KubeConfigSet.clusters (config_set [("a.yaml", Sample.doc_b); ("b.yaml", Sample.doc_b)])
    = Ok (Doc.clusters Sample.doc_b)
  ∧ KubeConfigSet.users (config_set [("a.yaml", Sample.doc_b); ("b.yaml", Sample.doc_b)])
    = Ok (Doc.users Sample.doc_b)
  ∧ KubeConfigSet.contexts (config_set [("a.yaml", Sample.doc_b); ("b.yaml", Sample.doc_b)])
    = Ok (Doc.contexts Sample.doc_b).
Proof.
  apply (merged_twice_distinct_names "a.yaml" "b.yaml" Sample.doc_b);
    cbn; apply NoDup_singleton.
Defined.

(** ** Routing *)

Lemma truthy_Some n : KubeConfigSet.truthy (Some n) = negb (bool_decide (n = "")).
Proof. done. Qed.

Lemma get_path_resolved pd docs n :
  (found ← KubeConfigSet.get_path_loop n (loaded <$> pd :: docs);
   match found with
   | Some p => Ok p
   | None => KubeConfig.path <$> KubeConfigSet.first (config_set (pd :: docs))
   end) = Ok (default pd.1 (route n (pd :: docs))).
Proof.
  rewrite get_path_loop_loaded. cbn [mbind result_bind].
  by destruct (route n (pd :: docs)).
Qed.

(** The statement of C5 for every name fails at the empty name: [get_path("")]
    treats it as no name at all and routes the current context, here to
    [a.yaml], although the only document listing a context named [""] is
    the one at [u.yaml]. *)
Lemma get_path_counterexample :
  let docs := [("a.yaml", Sample.doc_a); ("u.yaml", Sample.doc_unnamed)] in
  route "" docs = Some "u.yaml"
  ∧ KubeConfigSet.get_path (Some "") (config_set docs) = Ok "a.yaml"
  ∧ KubeConfigSet.get_path (Some "") (config_set docs) ≠ Ok "u.yaml".
Proof. cbn zeta. split_and!; [done|done|]. vm_compute. intros [=]. Qed.

(** C5 (amended). In a set of loaded members, [get_path(n)] for a
    non-empty name [n] returns the path of the first member whose contexts
    list has an entry named [n], or the first member's path when there is
    none; [get_path()] does the same for the current context when that is
    non-empty and returns the first member's path when it is empty; an
    empty name is treated as no name. *)
Theorem get_path_routes pd docs n :
  let S := config_set (pd :: docs) in
  let cur := Doc.current_context pd.2 in
  (n ≠ "" →
     KubeConfigSet.get_path (Some n) S = Ok (default pd.1 (route n (pd :: docs))))
  ∧ (cur ≠ "" →
     KubeConfigSet.get_path None S = Ok (default pd.1 (route cur (pd :: docs))))
  ∧ (cur = "" → KubeConfigSet.get_path None S = Ok pd.1)
  ∧ KubeConfigSet.get_path (Some "") S = KubeConfigSet.get_path None S.
Proof.
  cbn zeta. split_and!.
  - intros Hn. unfold KubeConfigSet.get_path. rewrite !truthy_Some.
    rewrite bool_decide_false by done. cbn [negb default mbind result_bind].
    rewrite truthy_Some, bool_decide_false by done. cbn [negb].
    apply get_path_resolved.
  - intros Hn. unfold KubeConfigSet.get_path.
    change (KubeConfigSet.truthy None) with false. cbv iota.
    rewrite current_context_loaded. cbn [mbind result_bind].
    rewrite truthy_Some, bool_decide_false by done. cbn [negb].
    apply get_path_resolved.
  - intros Hn. unfold KubeConfigSet.get_path.
    change (KubeConfigSet.truthy None) with false. cbv iota.
    rewrite current_context_loaded. cbn [mbind result_bind].
    rewrite truthy_Some, bool_decide_true by done. done.
  - done.
Qed.

Lemma get_path_routes_witness :
  let S := config_set [("a.yaml", Sample.doc_a); ("b.yaml", Sample.doc_b)] in
  KubeConfigSet.get_path (Some "ctx-b") S = Ok "b.yaml"
  ∧ KubeConfigSet.get_path (Some "ctx-a") S = Ok "a.yaml"
  ∧ KubeConfigSet.get_path None S = Ok "a.yaml".
Proof.
  cbn zeta. split_and!.
  - apply (proj1 (get_path_routes ("a.yaml", Sample.doc_a) [("b.yaml", Sample.doc_b)] "ctx-b")).
    discriminate.
  - apply (proj1 (get_path_routes ("a.yaml", Sample.doc_a) [("b.yaml", Sample.doc_b)] "ctx-a")).
    discriminate.
  - apply (proj1 (proj2 (get_path_routes ("a.yaml", Sample.doc_a) [("b.yaml", Sample.doc_b)] ""))).
    discriminate.
Defined.

(** ** Switching the current context *)

Lemma use_context_allow_unknown p d n w :
  KubeConfig.use_context n true (loaded (p, d), w)
  = (Ok (), (loaded (p, Doc.set_current_context n d), logged (SaveCalled p) w)).
Proof. done. Qed.

Lemma merged_nil {V} (field : Doc.t → list (entry V)) : merged field [] = [].
Proof. done. Qed.

Lemma set_use_context_absent docs n w :
  n ∉ names (merged Doc.contexts docs) →
  KubeConfigSet.use_context n (config_set docs, w)
  = (Raise (ValueError ("Context " +:+ n +:+ " not found")), (config_set docs, w)).
Proof.
  intros Hn. unfold KubeConfigSet.use_context. run_monad.
  rewrite contexts_loaded, bool_decide_false by done. done.
Qed.

Lemma set_use_context_present p d docs n w :
  n ∈ names (merged Doc.contexts ((p, d) :: docs)) →
  KubeConfigSet.use_context n (config_set ((p, d) :: docs), w)
  = (Ok (), (config_set ((p, Doc.set_current_context n d) :: docs),
             logged (SaveCalled p) w)).
Proof.
  intros Hn. unfold KubeConfigSet.use_context. run_monad.
  rewrite contexts_loaded, bool_decide_true by done. done.
Qed.

(** C6. On a set of loaded members, [use_context(n)] raises the not-found
    [ValueError] exactly when [n] is not a name of the merged context
    list, and then the members and the world, trace included, are as
    before: nothing is mutated and [save] is not entered.  When [n] is a
    merged name, the first member's current context becomes [n], wherever
    [n] is defined, and that member's [save] runs. *)
Theorem use_context_validates_against_merged docs cs n w :
  KubeConfigSet.contexts (config_set docs) = Ok cs →
  (n ∉ names cs →
     KubeConfigSet.use_context n (config_set docs, w)
     = (Raise (ValueError ("Context " +:+ n +:+ " not found")), (config_set docs, w)))
  ∧ (n ∈ names cs →
     ∃ p d rest, docs = (p, d) :: rest
       ∧ KubeConfigSet.use_context n (config_set docs, w)
         = (Ok (), (config_set ((p, Doc.set_current_context n d) :: rest),
                    logged (SaveCalled p) w)))
  ∧ ((∃ msg s, KubeConfigSet.use_context n (config_set docs, w) = (Raise (ValueError msg), s))
     ↔ n ∉ names cs).
Proof.
  rewrite contexts_loaded. intros [= <-].
  assert (n ∈ names (merged Doc.contexts docs) →
     ∃ p d rest, docs = (p, d) :: rest
       ∧ KubeConfigSet.use_context n (config_set docs, w)
         = (Ok (), (config_set ((p, Doc.set_current_context n d) :: rest),
                    logged (SaveCalled p) w))) as Hin.
  { intros Hn. destruct docs as [|[p d] rest].
    - rewrite merged_nil in Hn. by apply elem_of_nil in Hn.
    - exists p, d, rest. split; [done|]. by apply set_use_context_present. }
  split_and!; [apply set_use_context_absent|done|].
  split.
  - intros (msg & s & Hr) Hn. destruct (Hin Hn) as (p & d & rest & _ & Hok).
    rewrite Hok in Hr. discriminate.
  - intros Hn. eexists _, _. by apply set_use_context_absent.
Qed.

Lemma use_context_validates_against_merged_witness :
  let docs := [("a.yaml", Sample.doc_a); ("b.yaml", Sample.doc_b)] in
  KubeConfigSet.use_context "ctx-z" (config_set docs, Sample.disk_a)
  = (Raise (ValueError "Context ctx-z not found"), (config_set docs, Sample.disk_a))
  ∧ ∃ p d rest, docs = (p, d) :: rest
      ∧ KubeConfigSet.use_context "ctx-b" (config_set docs, Sample.disk_a)
        = (Ok (), (config_set ((p, Doc.set_current_context "ctx-b" d) :: rest),
                   logged (SaveCalled p) Sample.disk_a)).
Proof.
  cbn zeta. split.
  - apply (proj1 (use_context_validates_against_merged
                    [("a.yaml", Sample.doc_a); ("b.yaml", Sample.doc_b)] _ "ctx-z"
                    Sample.disk_a (contexts_loaded _))).
    apply (bool_decide_unpack _). vm_compute. exact I.
  - apply (proj1 (proj2 (use_context_validates_against_merged
                    [("a.yaml", Sample.doc_a); ("b.yaml", Sample.doc_b)] _ "ctx-b"
                    Sample.disk_a (contexts_loaded _)))).
    apply (bool_decide_unpack _). vm_compute. exact I.
Defined.

(** ** Current namespace *)

Lemma lookup_by_name_absent {V} what n (l : list (entry V)) :
  n ∉ names l →
  KubeConfig.lookup_by_name what n l = Raise (ValueError (what +:+ " " +:+ n +:+ " not found")).
Proof.
  induction l as [|e l IH]; [done|].
  intros [Hne Hn]%not_elem_of_cons. cbn.
  rewrite decide_False by congruence. by apply IH.
Qed.

(** C10. When the first member's current context is not a name of the
    merged context list, [current_namespace] raises the not-found
    [ValueError]; it does not fall back to ["default"]. *)
Theorem current_namespace_dangling pd docs cs :
  KubeConfigSet.contexts (config_set (pd :: docs)) = Ok cs →
  Doc.current_context pd.2 ∉ names cs →
  KubeConfigSet.current_namespace (config_set (pd :: docs))
  = Raise (ValueError ("Context " +:+ Doc.current_context pd.2 +:+ " not found")).
Proof.
  intros Hcs Hn. unfold KubeConfigSet.current_namespace.
  rewrite current_context_loaded. cbn [mbind result_bind].
  unfold KubeConfigSet.get_context. rewrite Hcs. cbn [mbind result_bind].
  by rewrite lookup_by_name_absent.
Qed.

Lemma current_namespace_dangling_witness :
  KubeConfigSet.current_namespace
    (config_set [("a.yaml", Sample.doc_dangling); ("b.yaml", Sample.doc_b)])
  = Raise (ValueError "Context gone not found").
Proof.
  apply (current_namespace_dangling ("a.yaml", Sample.doc_dangling) [("b.yaml", Sample.doc_b)]
           _ (contexts_loaded _)).
  apply (bool_decide_unpack _). vm_compute. exact I.
Defined.

(** ** Updating a loaded config in place *)

Lemma update_raw_loaded f p d w :
  KubeConfig.update_raw f (loaded (p, d), w) = (Ok (), (loaded (p, f d), w)).
Proof. done. Qed.

Lemma alter_at_length {A} (f : A → A) (pre : list A) x post :
  alter f (length pre) (pre ++ x :: post) = pre ++ f x :: post.
Proof. by rewrite alter_app_r_alt, Nat.sub_diag by lia. Qed.

(** ** Renaming a context *)

Lemma first_named_split {V} n (l : list (entry V)) :
  n ∈ names l → ∃ l1 v l2, l = l1 ++ Entry n v :: l2 ∧ n ∉ names l1.
Proof.
  induction l as [|[k v] l IH]; intros Hn.
  - by apply elem_of_nil in Hn.
  - destruct (decide (k = n)) as [->|Hne].
    + exists [], v, l. split; [done|]. apply not_elem_of_nil.
    + apply elem_of_cons in Hn as [Hn|Hn]; [done|].
      destruct (IH Hn) as (l1 & v' & l2 & -> & Hl1).
      exists (Entry k v :: l1), v', l2. split; [done|].
      cbn. apply not_elem_of_cons. split; [congruence|done].
Qed.

Lemma use_context_known p d n w :
  n ∈ names (Doc.contexts d) →
  KubeConfig.use_context n false (loaded (p, d), w)
  = (Ok (), (loaded (p, Doc.set_current_context n d), logged (SaveCalled p) w)).
Proof.
  intros Hn. unfold KubeConfig.use_context. run_monad.
  cbn [loaded KubeConfig.contexts KubeConfig.raw_field KubeConfig._raw fst snd].
  rewrite bool_decide_true by done. reflexivity.
Qed.

Lemma use_context_unknown p d n w :
  n ∉ names (Doc.contexts d) →
  KubeConfig.use_context n false (loaded (p, d), w)
  = (Raise (ValueError ("Context " +:+ n +:+ " not found")), (loaded (p, d), w)).
Proof.
  intros Hn. unfold KubeConfig.use_context. run_monad.
  cbn [loaded KubeConfig.contexts KubeConfig.raw_field KubeConfig._raw fst snd].
  rewrite bool_decide_false by done. reflexivity.
Qed.

Lemma rename_context_loop_absent old new cs : ∀ i s,
  old ∉ names cs →
  KubeConfig.rename_context_loop old new i cs s
  = (Raise (ValueError ("Context " +:+ old +:+ " not found")), s).
Proof.
  induction cs as [|c cs IH]; intros i s Hn; [done|].
  apply not_elem_of_cons in Hn as [Hne Hn]. cbn [KubeConfig.rename_context_loop].
  rewrite decide_False by congruence. by apply IH.
Qed.

Lemma rename_context_loop_found p old new v l2 w l1 : ∀ pre d,
  Doc.contexts d = pre ++ l1 ++ Entry old v :: l2 →
  old ∉ names l1 →
  KubeConfig.rename_context_loop old new (length pre) (l1 ++ Entry old v :: l2)
    (loaded (p, d), w)
  = (Ok (), (loaded (p, renamed_doc old new (pre ++ l1 ++ Entry new v :: l2) d),
             renamed_world old p d w)).
Proof.
  induction l1 as [|c l1 IH]; intros pre d Hd Hn.
  - cbn [app KubeConfig.rename_context_loop name]. rewrite decide_True by done.
    run_monad. rewrite update_raw_loaded.
    cbn [loaded KubeConfig.current_context KubeConfig.raw_field KubeConfig._raw fst snd].
    unfold KubeConfig.set_name at 1. cbn [Doc.current_context Doc.set_contexts].
    unfold renamed_doc, renamed_world.
    destruct (decide (Doc.current_context d = old)) as [Hc|Hc].
    + rewrite use_context_known.
      * rewrite (save_loaded (p, _)). unfold KubeConfig.set_name.
        cbn [app] in Hd. rewrite Hd, alter_at_length. reflexivity.
      * unfold KubeConfig.set_name. cbn [app] in Hd.
        cbn [Doc.contexts Doc.set_contexts]. rewrite Hd, alter_at_length.
        unfold names. rewrite fmap_app, fmap_cons. cbn [name].
        apply elem_of_app. right. left.
    + rewrite (save_loaded (p, _)). unfold KubeConfig.set_name.
      cbn [app] in Hd. rewrite Hd, alter_at_length. reflexivity.
  - apply not_elem_of_cons in Hn as [Hne Hn].
    cbn [app KubeConfig.rename_context_loop]. rewrite decide_False by congruence.
    replace (S (length pre)) with (length (pre ++ [c]))
      by (rewrite length_app; cbn; lia).
    rewrite (IH (pre ++ [c]) d); [|by rewrite <-app_assoc|done].
    by rewrite <-app_assoc.
Qed.

(** C7. On a loaded config, [rename_context(old, new)] raises the
    not-found [ValueError] and changes nothing when no context is named
    [old]; otherwise the first entry named [old] is renamed to [new] with
    its spec kept, the current context becomes [new] when it was [old] and
    stays as it was when it was not, and nothing else in the document or
    on disk changes. *)
Theorem rename_context_renames p d old new w :
  let cur := Doc.current_context d in
  (old ∉ names (Doc.contexts d) →
     KubeConfig.rename_context old new (loaded (p, d), w)
     = (Raise (ValueError ("Context " +:+ old +:+ " not found")), (loaded (p, d), w)))
  ∧ (old ∈ names (Doc.contexts d) →
     ∃ l1 v l2 d' w',
       Doc.contexts d = l1 ++ Entry old v :: l2 ∧ (old ∉ names l1)
       ∧ KubeConfig.rename_context old new (loaded (p, d), w) = (Ok (), (loaded (p, d'), w'))
       ∧ Doc.contexts d' = l1 ++ Entry new v :: l2
       ∧ Doc.current_context d' = (if decide (cur = old) then new else cur)
       ∧ Doc.set_current_context cur (Doc.set_contexts (Doc.contexts d) d') = d
       ∧ files w' = files w).
Proof.
  cbn zeta. split.
  - intros Hn. unfold KubeConfig.rename_context. run_monad.
    cbn [loaded KubeConfig.contexts KubeConfig.raw_field KubeConfig._raw fst snd].
    by apply rename_context_loop_absent.
  - intros Hn. destruct (first_named_split _ _ Hn) as (l1 & v & l2 & Hd & Hl1).
    exists l1, v, l2. eexists _, _. split; [done|]. split; [done|]. split.
    { unfold KubeConfig.rename_context. run_monad.
      cbn [loaded KubeConfig.contexts KubeConfig.raw_field KubeConfig._raw fst snd].
      rewrite Hd. apply (rename_context_loop_found p old new v l2 w l1 [] d); done. }
    unfold renamed_doc, renamed_world.
    destruct (decide (Doc.current_context d = old)); cbn; (split_and!; [done|done|by destruct d|done]).
Qed.

Lemma rename_context_renames_witness :
  ∃ l1 v l2 d' w',
    Doc.contexts Sample.doc_a = l1 ++ Entry "ctx-a" v :: l2 ∧ ("ctx-a" ∉ names l1)
    ∧ KubeConfig.rename_context "ctx-a" "main" (loaded ("a.yaml", Sample.doc_a), Sample.disk_a)
      = (Ok (), (loaded ("a.yaml", d'), w'))
    ∧ Doc.contexts d' = l1 ++ Entry "main" v :: l2
    ∧ Doc.current_context d' = "main".
Proof.
  destruct (proj2 (rename_context_renames "a.yaml" Sample.doc_a "ctx-a" "main" Sample.disk_a))
    as (l1 & v & l2 & d' & w' & H1 & H2 & H3 & H4 & H5 & _).
  { apply (bool_decide_unpack _). vm_compute. exact I. }
  exists l1, v, l2, d', w'. split; [exact H1|]. split; [exact H2|].
  split; [exact H3|]. split; [exact H4|]. exact H5.
Defined.

(** ** Switching the namespace *)

Lemma set_contexts_id d : Doc.set_contexts (Doc.contexts d) d = d.
Proof. by destruct d. Qed.

Lemma use_namespace_loop p ns w cs : ∀ pre d,
  Doc.contexts d = pre ++ cs →
  for_each (λ i context,
      cur ← read (λ s : KubeConfig.t * World, KubeConfig.current_context s.1);
      if decide (name context = cur)
      then KubeConfig.update_raw (KubeConfig.set_namespace i ns)
      else ret ()) (length pre) cs (loaded (p, d), w)
  = (Ok (), (loaded (p, Doc.set_contexts
                          (pre ++ (mark_namespace (Doc.current_context d) ns <$> cs)) d), w)).
Proof.
  induction cs as [|c cs IH]; intros pre d Hd.
  - cbn. rewrite app_nil_r, <-(app_nil_r pre), <-Hd, set_contexts_id. reflexivity.
  - cbn [for_each]. run_monad. cbn [loaded KubeConfig.current_context KubeConfig.raw_field
      KubeConfig._raw fst snd].
    destruct (decide (name c = Doc.current_context d)) as [Hc|Hc].
    + rewrite update_raw_loaded.
      replace (S (length pre)) with (length (pre ++ [with_namespace ns c]))
        by (rewrite length_app; cbn; lia).
      rewrite IH.
      * cbn [fmap list_fmap]. rewrite <-app_assoc. unfold mark_namespace.
        rewrite decide_True by done. reflexivity.
      * unfold KubeConfig.set_namespace. cbn [Doc.contexts Doc.set_contexts].
        rewrite Hd, alter_at_length, <-app_assoc. done.
    + replace (S (length pre)) with (length (pre ++ [c]))
        by (rewrite length_app; cbn; lia).
      rewrite IH by (by rewrite <-app_assoc).
      cbn [fmap list_fmap]. rewrite <-app_assoc. unfold mark_namespace.
      rewrite decide_False by done. reflexivity.
Qed.

Lemma use_namespace_run p d ns w :
  KubeConfig.use_namespace ns (loaded (p, d), w)
  = (Ok (), (loaded (p, Doc.set_contexts
                          (mark_namespace (Doc.current_context d) ns <$> Doc.contexts d) d),
             logged (SaveCalled p) w)).
Proof.
  unfold KubeConfig.use_namespace. run_monad.
  cbn [loaded KubeConfig.contexts KubeConfig.raw_field KubeConfig._raw fst snd].
  pose proof (use_namespace_loop p ns w (Doc.contexts d) [] d eq_refl) as Hloop.
  cbn [length app] in Hloop. unfold mbind, M_bind, bind, read, ret in Hloop.
  rewrite Hloop. apply (save_loaded (p, _)).
Qed.

Lemma mark_namespace_absent cur ns (cs : list (entry ctxspec)) :
  cur ∉ names cs → mark_namespace cur ns <$> cs = cs.
Proof.
  induction cs as [|c cs IH]; [done|].
  intros [Hne Hn]%not_elem_of_cons. cbn [fmap list_fmap].
  unfold mark_namespace at 1. rewrite decide_False by congruence.
  f_equal. by apply IH.
Qed.

(** C8. On a loaded config with no context named as its current
    context, [use_namespace(ns)] raises nothing, leaves the document as it
    was, and still enters [save].  In general every entry keeps its place
    and name; an entry named as the current context gets [namespace] set
    to [ns] and keeps its other keys, any other entry is unchanged. *)
Theorem use_namespace_marks_current p d ns w :
  let cur := Doc.current_context d in
  (cur ∉ names (Doc.contexts d) →
     KubeConfig.use_namespace ns (loaded (p, d), w)
     = (Ok (), (loaded (p, d), logged (SaveCalled p) w)))
  ∧ ∃ d', KubeConfig.use_namespace ns (loaded (p, d), w)
          = (Ok (), (loaded (p, d'), logged (SaveCalled p) w))
      ∧ Doc.set_contexts (Doc.contexts d) d' = d
      ∧ ∀ i c, Doc.contexts d !! i = Some c →
          ∃ c', Doc.contexts d' !! i = Some c' ∧ name c' = name c
            ∧ (name c = cur →
                 value c' !! "namespace" = Some (YStr ns)
                 ∧ ∀ k, k ≠ "namespace" → value c' !! k = value c !! k)
            ∧ (name c ≠ cur → c' = c).
Proof.
  cbn zeta. split.
  - intros Hn. rewrite use_namespace_run, mark_namespace_absent by done.
    by rewrite set_contexts_id.
  - eexists. split; [apply use_namespace_run|]. split.
    + cbn. by destruct d.
    + intros i c Hi. cbn [Doc.contexts Doc.set_contexts].
      rewrite list_lookup_fmap, Hi. cbn [fmap option_fmap option_map].
      eexists. split; [done|]. unfold mark_namespace.
      destruct (decide (name c = Doc.current_context d)) as [Hc|Hc].
      * split; [done|]. split; [|done]. intros _. cbn. split.
        -- apply lookup_insert_eq.
        -- intros k Hk. by rewrite lookup_insert_ne.
      * split; [done|]. split; done.
Qed.

Lemma use_namespace_marks_current_witness :
  KubeConfig.use_namespace "prod" (loaded ("a.yaml", Sample.doc_dangling), Sample.disk_a)
  = (Ok (), (loaded ("a.yaml", Sample.doc_dangling),
             logged (SaveCalled "a.yaml") Sample.disk_a))
  ∧ ∃ d', KubeConfig.use_namespace "prod" (loaded ("a.yaml", Sample.doc_a), Sample.disk_a)
          = (Ok (), (loaded ("a.yaml", d'), logged (SaveCalled "a.yaml") Sample.disk_a))
      ∧ ∃ c', Doc.contexts d' !! 0 = Some c' ∧ name c' = "ctx-a"
          ∧ value c' !! "namespace" = Some (YStr "prod").
Proof.
  split.
  - apply (proj1 (use_namespace_marks_current "a.yaml" Sample.doc_dangling "prod" Sample.disk_a)).
    apply (bool_decide_unpack _). vm_compute. exact I.
  - destruct (proj2 (use_namespace_marks_current "a.yaml" Sample.doc_a "prod" Sample.disk_a))
      as (d' & Hrun & _ & Hentries).
    exists d'. split; [exact Hrun|].
    destruct (Hentries 0 (Entry "ctx-a" (Sample.binding "c1" "admin")) eq_refl)
      as (c' & Hc' & Hname & Hmark & _).
    exists c'. split; [exact Hc'|]. split; [exact Hname|].
    exact (proj1 (Hmark eq_refl)).
Defined.

(** ** The raw projection *)

Lemma preferences_loaded pd docs :
  KubeConfigSet.preferences (config_set (pd :: docs)) = Ok (Doc.preferences pd.2).
Proof. done. Qed.

Lemma raw_loaded pd docs :
  KubeConfigSet.raw (config_set (pd :: docs))
  = Ok (Doc.Make "v1" "Config" (Doc.preferences pd.2)
          (merged Doc.clusters (pd :: docs)) (merged Doc.users (pd :: docs))
          (merged Doc.contexts (pd :: docs)) (Doc.current_context pd.2)
          (if bool_decide (extensions_of_all (pd :: docs) = []) then None
           else Some (extensions_of_all (pd :: docs)))).
Proof.
  unfold KubeConfigSet.raw.
  rewrite preferences_loaded, clusters_loaded, users_loaded, contexts_loaded,
    current_context_loaded, extensions_loaded.
  reflexivity.
Qed.

(** The statement of C9 on preferences fails: with a first member that
    has no preferences and a second that sets [colors], the projection's
    preferences are the first member's, empty, and not the merge of both,
    which has [colors]. *)
Lemma raw_preferences_counterexample :
  let docs := [("a.yaml", Sample.doc_a); ("b.yaml", Sample.doc_b)] in
  ∃ r, KubeConfigSet.raw (config_set docs) = Ok r
       ∧ Doc.preferences r = Doc.preferences Sample.doc_a
       ∧ preferences_of_all docs !! "colors" = Some (YBool true)
       ∧ Doc.preferences r ≠ preferences_of_all docs.
Proof.
  cbn zeta. eexists. split; [apply raw_loaded|].
  cbn [Doc.preferences snd Sample.doc_a].
  assert (preferences_of_all [("a.yaml", Sample.doc_a); ("b.yaml", Sample.doc_b)]
          !! "colors" = Some (YBool true)) as Hcolors by (by vm_compute).
  split_and!; [done|done|].
  intros Heq. rewrite <-Heq in Hcolors. by rewrite lookup_empty in Hcolors.
Qed.

(** C9 (amended). The raw projection of a set of loaded members is a
    document with apiVersion [v1] and kind [Config], the preferences of
    the first member, the merged clusters, users and contexts, the set's
    current context, and an extensions field holding the extensions of
    all members exactly when there is at least one. *)
Theorem raw_projection pd docs :
  let S := config_set (pd :: docs) in
  ∃ r, KubeConfigSet.raw S = Ok r
    ∧ Doc.apiVersion r = "v1"
    ∧ Doc.kind r = "Config"
    ∧ Doc.preferences r = Doc.preferences pd.2
    ∧ KubeConfigSet.clusters S = Ok (Doc.clusters r)
    ∧ KubeConfigSet.users S = Ok (Doc.users r)
    ∧ KubeConfigSet.contexts S = Ok (Doc.contexts r)
    ∧ KubeConfigSet.current_context S = Ok (Doc.current_context r)
    ∧ ∃ exts, KubeConfigSet.extensions S = Ok exts
        ∧ (exts = [] → Doc.extensions r = None)
        ∧ (exts ≠ [] → Doc.extensions r = Some exts).
Proof.
  cbn zeta. eexists. split; [apply raw_loaded|].
  rewrite clusters_loaded, users_loaded, contexts_loaded, extensions_loaded.
  split_and!; try done.
  exists (extensions_of_all (pd :: docs)). cbn [Doc.extensions]. split_and!; [done| |].
  - intros ->. done.
  - intros Hne. by rewrite bool_decide_false.
Qed.

Lemma raw_projection_witness :
  ∃ r, KubeConfigSet.raw (config_set [("a.yaml", Sample.doc_a); ("b.yaml", Sample.doc_b)]) = Ok r
    ∧ Doc.preferences r = ∅
    ∧ Doc.current_context r = "ctx-a"
    ∧ Doc.extensions r = Some [YStr "ext-b"].
Proof.
  destruct (raw_projection ("a.yaml", Sample.doc_a) [("b.yaml", Sample.doc_b)])
    as (r & Hr & _ & _ & Hp & _ & _ & _ & Hc & exts & He & _ & Hsome).
  exists r. split; [exact Hr|]. split; [exact Hp|]. split.
  - cbn in Hc. by injection Hc.
  - rewrite extensions_loaded in He. injection He as <-. apply Hsome. discriminate.
Defined.

(** ** Methods of the set that reach into a member *)

Lemma on_member_loaded {A} i (m : M KubeConfig.obj A) docs pd pd' r w w' :
  docs !! i = Some pd →
  m (loaded pd, w) = (r, (loaded pd', w')) →
  KubeConfigSet.on_member i m (config_set docs, w)
  = (r, (config_set (<[i := pd']> docs), w')).
Proof.
  intros Hi Hm. unfold KubeConfigSet.on_member, config_set.
  cbn [KubeConfigSet._configs]. rewrite list_lookup_fmap, Hi. cbn [fmap option_fmap option_map].
  rewrite Hm. by rewrite list_fmap_insert.
Qed.

Lemma on_member_read {A} i (f : KubeConfig.t → result A) docs pd w :
  docs !! i = Some pd →
  KubeConfigSet.on_member i (read (λ s, f s.1)) (config_set docs, w)
  = (f (loaded pd), (config_set docs, w)).
Proof.
  intros Hi. rewrite (on_member_loaded i _ docs pd pd (f (loaded pd)) w w) by done.
  by rewrite list_insert_id.
Qed.

Lemma set_current_context_insert docs i p d d' :
  docs !! i = Some (p, d) →
  Doc.current_context d' = Doc.current_context d →
  KubeConfigSet.current_context (config_set (<[i := (p, d')]> docs))
  = KubeConfigSet.current_context (config_set docs).
Proof.
  intros Hi Hd. destruct docs as [|[p0 d0] docs]; [done|].
  destruct i as [|i]; [|done]. cbn in Hi. injection Hi as -> ->.
  cbn. by rewrite Hd.
Qed.

Lemma set_use_namespace_inner ns w cur i p cs : ∀ pre docs d,
  docs !! i = Some (p, d) →
  Doc.contexts d = pre ++ cs →
  KubeConfigSet.current_context (config_set docs) = Ok cur →
  for_each (λ j context,
      cur ← read (λ s : KubeConfigSet.t * World, KubeConfigSet.current_context s.1);
      if decide (name context = cur)
      then KubeConfigSet.on_member i (KubeConfig.update_raw (KubeConfig.set_namespace j ns))
      else mret ()) (length pre) cs (config_set docs, w)
  = (Ok (), (config_set (<[i := (p, Doc.set_contexts (pre ++ (mark_namespace cur ns <$> cs)) d)]> docs), w)).
Proof.
  induction cs as [|c cs IH]; intros pre docs d Hi Hd Hcur.
  - cbn [for_each fmap list_fmap]. rewrite <-Hd, set_contexts_id, list_insert_id by done.
    reflexivity.
  - cbn [for_each]. run_monad. rewrite Hcur.
    destruct (decide (name c = cur)) as [Hc|Hc].
    + rewrite (on_member_loaded i _ docs (p, d)
                 (p, KubeConfig.set_namespace (length pre) ns d) (Ok ()) w w)
        by done.
      replace (S (length pre)) with (length (pre ++ [with_namespace ns c]))
        by (rewrite length_app; cbn; lia).
      unfold mret, M_ret, ret in IH. unfold mbind, M_bind, bind, read in IH.
      rewrite (IH (pre ++ [with_namespace ns c])
                 (<[i := (p, KubeConfig.set_namespace (length pre) ns d)]> docs)
                 (KubeConfig.set_namespace (length pre) ns d)).
      * rewrite list_insert_insert_eq. cbn [fmap list_fmap]. rewrite <-app_assoc.
        unfold mark_namespace at 2. rewrite decide_True by done. reflexivity.
      * apply list_lookup_insert_eq. by eapply lookup_lt_Some.
      * unfold KubeConfig.set_namespace. cbn [Doc.contexts Doc.set_contexts].
        rewrite Hd, alter_at_length, <-app_assoc. done.
      * by rewrite (set_current_context_insert docs i p d).
    + replace (S (length pre)) with (length (pre ++ [c]))
        by (rewrite length_app; cbn; lia).
      unfold mret, M_ret, ret in IH. unfold mbind, M_bind, bind, read in IH.
      rewrite (IH (pre ++ [c]) docs d); [|done|by rewrite <-app_assoc|done].
      cbn [fmap list_fmap]. rewrite <-app_assoc.
      unfold mark_namespace at 2. rewrite decide_False by done. reflexivity.
Qed.

Lemma insert_at_length {A} (pre : list A) x y post :
  <[length pre := y]> (pre ++ x :: post) = pre ++ y :: post.
Proof. by rewrite insert_app_r_alt, Nat.sub_diag by lia. Qed.

Lemma set_use_namespace_outer ns cur todo : ∀ pre w,
  KubeConfigSet.current_context (config_set (pre ++ todo)) = Ok cur →
  for_each (λ i _,
      cs ← KubeConfigSet.on_member i (read (λ s, KubeConfig.contexts s.1));
      for_each (λ j context,
          cur ← read (λ s : KubeConfigSet.t * World, KubeConfigSet.current_context s.1);
          if decide (name context = cur)
          then KubeConfigSet.on_member i
                 (KubeConfig.update_raw (KubeConfig.set_namespace j ns))
          else mret ()) 0 cs;;
      KubeConfigSet.on_member i KubeConfig.save) (length pre) (loaded <$> todo)
    (config_set (pre ++ todo), w)
  = (Ok (), (config_set (pre ++ (mark_doc cur ns <$> todo)), saved_all todo w)).
Proof.
  induction todo as [|[p d] todo IH]; intros pre w Hcur; [reflexivity|].
  cbn [fmap list_fmap for_each]. unfold mbind at 1, M_bind at 1, bind at 1.
  unfold mbind at 1, M_bind at 1, bind at 1.
  rewrite (on_member_read _ _ _ (p, d)) by apply list_lookup_middle, eq_refl.
  cbn [loaded KubeConfig.contexts KubeConfig.raw_field KubeConfig._raw fst snd].
  unfold mbind at 1, M_bind at 1, bind at 1.
  pose proof (set_use_namespace_inner ns w cur (length pre) p (Doc.contexts d) []
                (pre ++ (p, d) :: todo) d (list_lookup_middle _ _ _ _ eq_refl) eq_refl Hcur)
    as Hinner.
  cbn [length app] in Hinner. rewrite Hinner. clear Hinner.
  rewrite insert_at_length.
  rewrite (on_member_loaded (length pre) _ _ (mark_doc cur ns (p, d)) (mark_doc cur ns (p, d))
             (Ok ()) w (logged (SaveCalled p) w));
    [|apply list_lookup_middle, eq_refl|apply (save_loaded (p, _))].
  rewrite insert_at_length.
  replace (S (length pre)) with (length (pre ++ [mark_doc cur ns (p, d)]))
    by (rewrite length_app; cbn; lia).
  rewrite (cons_middle _ pre todo), app_assoc. rewrite IH.
  - by rewrite <-app_assoc.
  - rewrite <-app_assoc. cbn [app].
    rewrite <-(insert_at_length pre (p, d) (mark_doc cur ns (p, d)) todo).
    unfold mark_doc. cbn [fst snd].
    rewrite (set_current_context_insert _ _ p d); [done| |done].
    apply list_lookup_middle, eq_refl.
Qed.

(** The set's [use_namespace] marks, in every member, the entries named
    as the set's current context, and enters every member's [save]. *)
Lemma set_use_namespace_run docs ns w :
  KubeConfigSet.use_namespace ns (config_set docs, w)
  = (Ok (), (config_set (mark_doc (set_current docs) ns <$> docs), saved_all docs w)).
Proof.
  unfold KubeConfigSet.use_namespace. unfold mbind at 1, M_bind at 1, bind at 1.
  unfold get_state. cbn [config_set KubeConfigSet._configs].
  destruct docs as [|pd docs]; [reflexivity|].
  apply (set_use_namespace_outer ns (set_current (pd :: docs)) (pd :: docs) [] w).
  reflexivity.
Qed.

Lemma rename_first_split old new l1 v l2 :
  old ∉ names l1 →
  rename_first old new (l1 ++ Entry old v :: l2) = l1 ++ Entry new v :: l2.
Proof.
  induction l1 as [|c l1 IH]; intros Hn; cbn.
  - by rewrite decide_True.
  - apply not_elem_of_cons in Hn as [Hne Hn].
    rewrite decide_False by congruence. by rewrite IH.
Qed.

Lemma rename_context_run p d old new w :
  old ∈ names (Doc.contexts d) →
  KubeConfig.rename_context old new (loaded (p, d), w)
  = (Ok (), (loaded (p, renamed_doc old new (rename_first old new (Doc.contexts d)) d),
             renamed_world old p d w)).
Proof.
  intros Hn. destruct (first_named_split _ _ Hn) as (l1 & v & l2 & Hd & Hl1).
  unfold KubeConfig.rename_context. run_monad.
  cbn [loaded KubeConfig.contexts KubeConfig.raw_field KubeConfig._raw fst snd].
  rewrite Hd, rename_first_split by done.
  apply (rename_context_loop_found p old new v l2 w l1 [] d); done.
Qed.

Lemma elem_of_concat {A} (x : A) (l : list A) (ls : list (list A)) :
  x ∈ l → l ∈ ls → x ∈ concat ls.
Proof.
  intros Hx Hl. induction Hl as [l ls|l l' ls _ IH]; cbn; apply elem_of_app; auto.
Qed.

Lemma names_merged {V} (field : Doc.t → list (entry V)) docs pd n :
  pd ∈ docs → n ∈ names (field pd.2) → n ∈ names (merged field docs).
Proof.
  intros Hpd Hn. unfold merged, names, dict_list_pack, PyDict.items.
  rewrite <-list_fmap_compose.
  change (n ∈ (list_dict_unpack (concat ((λ pd, field pd.2) <$> docs))).*1).
  apply keys_unpack_names. unfold names.
  apply list_elem_of_fmap in Hn as (e & -> & He).
  apply list_elem_of_fmap. exists e. split; [done|].
  apply (elem_of_concat _ (field pd.2)); [done|].
  apply list_elem_of_fmap. by exists pd.
Qed.

Lemma set_rename_loop_absent old new todo : ∀ pre w,
  Forall (λ pd, old ∉ names (Doc.contexts pd.2)) todo →
  KubeConfigSet.rename_context_loop old new (length pre) (loaded <$> todo)
    (config_set (pre ++ todo), w)
  = (Raise (ValueError ("Context " +:+ old +:+ " not found")), (config_set (pre ++ todo), w)).
Proof.
  induction todo as [|[p d] todo IH]; intros pre w Hall; [reflexivity|].
  apply Forall_cons in Hall as [Hd Hall].
  cbn [fmap list_fmap KubeConfigSet.rename_context_loop].
  unfold mbind at 1, M_bind at 1, bind at 1.
  rewrite (on_member_read _ _ _ (p, d)) by apply list_lookup_middle, eq_refl.
  cbn [loaded KubeConfig.contexts KubeConfig.raw_field KubeConfig._raw fst snd].
  rewrite bool_decide_false by done.
  replace (S (length pre)) with (length (pre ++ [(p, d)]))
    by (rewrite length_app; cbn; lia).
  replace (pre ++ (p, d) :: todo) with ((pre ++ [(p, d)]) ++ todo)
    by (by rewrite <-app_assoc).
  by apply IH.
Qed.

Lemma set_rename_loop_found old new p d post skipped : ∀ pre w,
  Forall (λ pd, old ∉ names (Doc.contexts pd.2)) skipped →
  old ∈ names (Doc.contexts d) →
  KubeConfigSet.rename_context_loop old new (length pre) (loaded <$> skipped ++ (p, d) :: post)
    (config_set (pre ++ skipped ++ (p, d) :: post), w)
  = (cur ← read (λ s : KubeConfigSet.t * World, KubeConfigSet.current_context s.1);
     if decide (cur = old) then KubeConfigSet.use_context new else mret ())
      (config_set (pre ++ skipped
                   ++ (p, renamed_doc old new (rename_first old new (Doc.contexts d)) d) :: post),
       renamed_world old p d w).
Proof.
  induction skipped as [|[p' d'] skipped IH]; intros pre w Hall Hd.
  - cbn [app fmap list_fmap KubeConfigSet.rename_context_loop].
    unfold mbind at 1, M_bind at 1, bind at 1.
    rewrite (on_member_read _ _ _ (p, d)) by apply list_lookup_middle, eq_refl.
    cbn [loaded KubeConfig.contexts KubeConfig.raw_field KubeConfig._raw fst snd].
    rewrite bool_decide_true by done.
    unfold mbind at 1, M_bind at 1, bind at 1.
    rewrite (on_member_loaded (length pre) _ _ (p, d)
               (p, renamed_doc old new (rename_first old new (Doc.contexts d)) d)
               (Ok ()) w (renamed_world old p d w));
      [|apply list_lookup_middle, eq_refl|by apply rename_context_run].
    by rewrite insert_at_length.
  - apply Forall_cons in Hall as [Hd' Hall].
    cbn [app fmap list_fmap KubeConfigSet.rename_context_loop].
    unfold mbind at 1, M_bind at 1, bind at 1.
    rewrite (on_member_read _ _ _ (p', d')) by apply list_lookup_middle, eq_refl.
    cbn [loaded KubeConfig.contexts KubeConfig.raw_field KubeConfig._raw fst snd].
    rewrite bool_decide_false by done.
    replace (S (length pre)) with (length (pre ++ [(p', d')]))
      by (rewrite length_app; cbn; lia).
    replace (pre ++ (p', d') :: skipped ++ (p, d) :: post)
      with ((pre ++ [(p', d')]) ++ skipped ++ (p, d) :: post)
      by (by rewrite <-app_assoc).
    etrans; [apply (IH (pre ++ [(p', d')]) w Hall Hd)|].
    by rewrite <-app_assoc.
Qed.

Lemma rename_first_names old new cs :
  old ∈ names cs → new ∈ names (rename_first old new cs).
Proof.
  intros Hn. destruct (first_named_split _ _ Hn) as (l1 & v & l2 & -> & Hl1).
  rewrite rename_first_split by done. unfold names.
  rewrite fmap_app, fmap_cons. apply elem_of_app. right. left.
Qed.

Lemma renamed_doc_contexts old new cs d : Doc.contexts (renamed_doc old new cs d) = cs.
Proof. unfold renamed_doc. by case_decide. Qed.

Lemma renamed_doc_current old new cs d :
  Doc.current_context (renamed_doc old new cs d)
  = if decide (Doc.current_context d = old) then new else Doc.current_context d.
Proof. unfold renamed_doc. by case_decide. Qed.

Lemma renamed_world_files old p d w : files (renamed_world old p d w) = files w.
Proof. unfold renamed_world. by case_decide. Qed.

Lemma contexts_after_rename (pre post : list (string * Doc.t)) p d d' :
  (λ pd, Doc.contexts pd.2) <$> (pre ++ (p, d') :: post)
  = <[length pre := Doc.contexts d']> ((λ pd, Doc.contexts pd.2) <$> (pre ++ (p, d) :: post)).
Proof.
  rewrite !fmap_app, !fmap_cons.
  rewrite <-(length_fmap (λ pd : string * Doc.t, Doc.contexts pd.2) pre).
  by rewrite insert_at_length.
Qed.

(** X15. The set's [rename_context] raises the not-found [ValueError] and
    changes nothing when no member defines [old]; otherwise it renames
    the first entry named [old] in the first member that defines it, and
    the set's current context becomes [new] when it was [old] and stays
    as it was otherwise. *)
Theorem set_rename_context_renames docs old new w :
  (Forall (λ pd, old ∉ names (Doc.contexts pd.2)) docs →
     KubeConfigSet.rename_context old new (config_set docs, w)
     = (Raise (ValueError ("Context " +:+ old +:+ " not found")), (config_set docs, w)))
  ∧ (∀ pre p d post,
       docs = pre ++ (p, d) :: post →
       Forall (λ pd, old ∉ names (Doc.contexts pd.2)) pre →
       old ∈ names (Doc.contexts d) →
       ∃ docs' w',
         KubeConfigSet.rename_context old new (config_set docs, w)
         = (Ok (), (config_set docs', w'))
         ∧ files w' = files w
         ∧ set_current docs'
           = (if decide (set_current docs = old) then new else set_current docs)
         ∧ (λ pd, Doc.contexts pd.2) <$> docs'
           = <[length pre := rename_first old new (Doc.contexts d)]>
               ((λ pd, Doc.contexts pd.2) <$> docs)
         ∧ docs'.*1 = docs.*1).
Proof.
  split.
  - intros Hall. apply (set_rename_loop_absent old new docs [] w Hall).
  - intros pre p d post -> Hpre Hd.
    set (d' := renamed_doc old new (rename_first old new (Doc.contexts d)) d).
    assert (KubeConfigSet.rename_context old new (config_set (pre ++ (p, d) :: post), w)
            = (cur ← read (λ s : KubeConfigSet.t * World, KubeConfigSet.current_context s.1);
               if decide (cur = old) then KubeConfigSet.use_context new else mret ())
                (config_set (pre ++ (p, d') :: post), renamed_world old p d w)) as ->.
    { apply (set_rename_loop_found old new p d post pre [] w Hpre Hd). }
    assert (new ∈ names (merged Doc.contexts (pre ++ (p, d') :: post))) as Hnew.
    { apply (names_merged Doc.contexts _ (p, d')).
      - apply elem_of_app. right. left.
      - cbn [snd]. unfold d'. rewrite renamed_doc_contexts. by apply rename_first_names. }
    assert ((λ pd, Doc.contexts pd.2) <$> (pre ++ (p, d') :: post)
            = <[length pre := rename_first old new (Doc.contexts d)]>
                ((λ pd, Doc.contexts pd.2) <$> (pre ++ (p, d) :: post))) as Hctx.
    { rewrite (contexts_after_rename pre post p d d'). unfold d'.
      by rewrite renamed_doc_contexts. }
    assert (Doc.current_context d'
            = if decide (Doc.current_context d = old) then new else Doc.current_context d)
      as Hcur' by apply renamed_doc_current.
    run_monad. destruct pre as [|[p0 d0] pre].
    + cbn [app] in *. rewrite current_context_loaded. cbn [snd].
      rewrite Hcur'.
      unfold set_current. cbn [head from_option snd].
      destruct (decide (Doc.current_context d = old)) as [Hc|Hc].
      * destruct (decide (new = old)) as [Hno|Hno].
        -- rewrite (set_use_context_present p d' post new _ Hnew).
           eexists _, _. split; [done|]. cbn [logged files].
           rewrite renamed_world_files. split; [done|].
           cbn [head from_option snd Doc.current_context Doc.set_current_context].
           split; [done|]. split; [|done]. rewrite <-Hctx. done.
        -- eexists _, _. split; [done|]. rewrite renamed_world_files. split; [done|].
           cbn [head from_option snd]. rewrite Hcur'.
           split; [done|]. split; [|done]. done.
      * rewrite decide_False by done.
        eexists _, _. split; [done|]. rewrite renamed_world_files. split; [done|].
        cbn [head from_option snd]. rewrite Hcur'.
        split; [done|]. split; [|done]. done.
    + cbn [app] in *. rewrite current_context_loaded. cbn [snd].
      unfold set_current. cbn [head from_option snd].
      destruct (decide (Doc.current_context d0 = old)) as [Hc|Hc].
      * rewrite (set_use_context_present p0 d0 (pre ++ (p, d') :: post) new _ Hnew).
        eexists _, _. split; [done|]. cbn [logged files].
        rewrite renamed_world_files. split; [done|].
        cbn [head from_option snd Doc.current_context Doc.set_current_context].
        split; [done|]. split.
        -- rewrite <-Hctx. done.
        -- cbn. by rewrite !fmap_app.
      * eexists _, _. split; [done|]. rewrite renamed_world_files. split; [done|].
        cbn [head from_option snd]. split; [done|]. split; [done|].
        cbn. by rewrite !fmap_app.
Qed.

Lemma set_rename_context_renames_witness :
  ∃ docs' w',
    KubeConfigSet.rename_context "ctx-b" "dev"
      (config_set [("a.yaml", Sample.doc_a); ("b.yaml", Sample.doc_b)], Sample.disk_a)
    = (Ok (), (config_set docs', w'))
    ∧ files w' = files Sample.disk_a
    ∧ set_current docs' = "ctx-a"
    ∧ docs'.*1 = ["a.yaml"; "b.yaml"].
Proof.
  destruct (proj2 (set_rename_context_renames
                     [("a.yaml", Sample.doc_a); ("b.yaml", Sample.doc_b)]
                     "ctx-b" "dev" Sample.disk_a)
              [("a.yaml", Sample.doc_a)] "b.yaml" Sample.doc_b [] eq_refl)
    as (docs' & w' & Hrun & Hfiles & Hcur & _ & Hpaths).
  - apply Forall_singleton. apply (bool_decide_unpack _). vm_compute. exact I.
  - apply (bool_decide_unpack _). vm_compute. exact I.
  - exists docs', w'. split; [exact Hrun|]. split; [exact Hfiles|].
    split; [exact Hcur|exact Hpaths].
Defined.

(** ** Loading and saving one config *)

(** X1. Awaiting a config a second time gives the same result and the same
    state as awaiting it once; awaiting never changes the disk, the trace
    or the config's path. *)
Theorem await_idempotent self w :
  KubeConfig.__await__ (KubeConfig.__await__ (self, w)).2 = KubeConfig.__await__ (self, w)
  ∧ (KubeConfig.__await__ (self, w)).2.2 = w
  ∧ KubeConfig.path (KubeConfig.__await__ (self, w)).2.1 = KubeConfig.path self.
Proof.
  destruct self as [p [d|]]; [by split_and!|].
  unfold KubeConfig.__await__. run_monad. cbn.
  destruct (files w !! p) as [[d|]|] eqn:Hp; cbn; rewrite ?Hp; by split_and!.
Qed.


(** ** Lookups by name *)

Lemma lookup_by_name_first {V} what n v (l1 l2 : list (entry V)) :
  n ∉ names l1 →
  KubeConfig.lookup_by_name what n (l1 ++ Entry n v :: l2) = Ok v.
Proof.
  induction l1 as [|e l1 IH]; intros Hn; cbn.
  - by rewrite decide_True.
  - apply not_elem_of_cons in Hn as [Hne Hn].
    rewrite decide_False by congruence. by apply IH.
Qed.

(** X5. On a loaded config, [get_context], [get_cluster] and [get_user]
    raise the not-found [ValueError] when no entry has the name, and
    otherwise return the value of the first entry with that name. *)
Theorem getters_find_first_entry p d n :
  let self := loaded (p, d) in
  (n ∉ names (Doc.contexts d) →
     KubeConfig.get_context n self = Raise (ValueError ("Context " +:+ n +:+ " not found")))
  ∧ (n ∉ names (Doc.clusters d) →
     KubeConfig.get_cluster n self = Raise (ValueError ("Cluster " +:+ n +:+ " not found")))
  ∧ (n ∉ names (Doc.users d) →
     KubeConfig.get_user n self = Raise (ValueError ("User " +:+ n +:+ " not found")))
  ∧ (∀ l1 v l2, Doc.contexts d = l1 ++ Entry n v :: l2 → n ∉ names l1 →
     KubeConfig.get_context n self = Ok v)
  ∧ (∀ l1 v l2, Doc.clusters d = l1 ++ Entry n v :: l2 → n ∉ names l1 →
     KubeConfig.get_cluster n self = Ok v)
  ∧ (∀ l1 v l2, Doc.users d = l1 ++ Entry n v :: l2 → n ∉ names l1 →
     KubeConfig.get_user n self = Ok v).
Proof.
  cbn zeta. unfold KubeConfig.get_context, KubeConfig.get_cluster, KubeConfig.get_user.
  cbn. split_and!.
  - apply lookup_by_name_absent.
  - apply lookup_by_name_absent.
  - apply lookup_by_name_absent.
  - intros l1 v l2 -> Hn. by apply lookup_by_name_first.
  - intros l1 v l2 -> Hn. by apply lookup_by_name_first.
  - intros l1 v l2 -> Hn. by apply lookup_by_name_first.
Qed.

Lemma getters_find_first_entry_witness :
  KubeConfig.get_cluster "c1" (loaded ("a.yaml", Sample.doc_dup))
  = Ok (YStr "https://old.example")
  ∧ KubeConfig.get_user "nobody" (loaded ("a.yaml", Sample.doc_a))
    = Raise (ValueError "User nobody not found").
Proof.
  destruct (getters_find_first_entry "a.yaml" Sample.doc_dup "c1")
    as (_ & _ & _ & _ & Hc & _).
  destruct (getters_find_first_entry "a.yaml" Sample.doc_a "nobody")
    as (_ & _ & Hu & _).
  split.
  - apply (Hc [] (YStr "https://old.example") [Entry "c1" (YStr "https://new.example")]);
      [done|apply not_elem_of_nil].
  - apply Hu. apply (bool_decide_unpack _). vm_compute. exact I.
Defined.

(** ** Current namespace of one config *)

Lemma current_namespace_loaded p d :
  KubeConfig.current_namespace (loaded (p, d))
  = (ctx ← KubeConfig.lookup_by_name "Context" (Doc.current_context d) (Doc.contexts d);
     Ok (default (YStr "default") (ctx !! "namespace"))).
Proof. done. Qed.

(** X6. On a loaded config, [current_namespace] raises the not-found
    [ValueError] when no context is named as the current context;
    otherwise it reads the first such context and returns its
    [namespace] value, or ["default"] when the key is missing. *)
Theorem current_namespace_of_config p d :
  let cur := Doc.current_context d in
  (cur ∉ names (Doc.contexts d) →
     KubeConfig.current_namespace (loaded (p, d))
     = Raise (ValueError ("Context " +:+ cur +:+ " not found")))
  ∧ (∀ l1 v l2, Doc.contexts d = l1 ++ Entry cur v :: l2 → cur ∉ names l1 →
       (v !! "namespace" = None →
          KubeConfig.current_namespace (loaded (p, d)) = Ok (YStr "default"))
       ∧ (∀ ns, v !! "namespace" = Some ns →
          KubeConfig.current_namespace (loaded (p, d)) = Ok ns)).
Proof.
  cbn zeta. split.
  - intros Hn. by rewrite current_namespace_loaded, lookup_by_name_absent.
  - intros l1 v l2 Hd Hn. rewrite current_namespace_loaded, Hd, lookup_by_name_first by done.
    cbn. split; [by intros ->|by intros ns ->].
Qed.

Lemma current_namespace_of_config_witness :
  KubeConfig.current_namespace (loaded ("a.yaml", Sample.doc_a)) = Ok (YStr "default")
  ∧ KubeConfig.current_namespace (loaded ("a.yaml", Sample.doc_dangling))
    = Raise (ValueError "Context gone not found").
Proof.
  destruct (current_namespace_of_config "a.yaml" Sample.doc_a) as [_ Hfound].
  destruct (current_namespace_of_config "a.yaml" Sample.doc_dangling) as [Hgone _].
  split.
  - destruct (Hfound [] (Sample.binding "c1" "admin") [] eq_refl (not_elem_of_nil _))
      as [Hdefault _].
    apply Hdefault. vm_compute. reflexivity.
  - apply Hgone. apply (bool_decide_unpack _). vm_compute. exact I.
Defined.

Lemma lookup_by_name_mark what cur ns (cs : list (entry ctxspec)) :
  KubeConfig.lookup_by_name what cur (mark_namespace cur ns <$> cs)
  = (λ v, <["namespace" := YStr ns]> v) <$> KubeConfig.lookup_by_name what cur cs.
Proof.
  induction cs as [|c cs IH]; [done|].
  cbn [fmap list_fmap KubeConfig.lookup_by_name].
  assert (name (mark_namespace cur ns c) = name c) as ->
    by (unfold mark_namespace; by case_decide).
  destruct (decide (name c = cur)) as [Hc|Hc]; [|apply IH].
  unfold mark_namespace. by rewrite decide_True.
Qed.

(** X7. On a loaded config whose current context is one of its contexts,
    [current_namespace] after [use_namespace(ns)] is [ns]. *)
Theorem use_namespace_then_current_namespace p d ns w :
  Doc.current_context d ∈ names (Doc.contexts d) →
  ∃ d' w', KubeConfig.use_namespace ns (loaded (p, d), w) = (Ok (), (loaded (p, d'), w'))
    ∧ KubeConfig.current_namespace (loaded (p, d')) = Ok (YStr ns).
Proof.
  intros Hcur. eexists _, _. split; [apply use_namespace_run|].
  rewrite current_namespace_loaded. cbn [Doc.current_context Doc.contexts Doc.set_contexts].
  rewrite lookup_by_name_mark.
  destruct (first_named_split _ _ Hcur) as (l1 & v & l2 & -> & Hl1).
  rewrite lookup_by_name_first by done. cbn. by rewrite lookup_insert_eq.
Qed.

Lemma use_namespace_then_current_namespace_witness :
  ∃ d' w', KubeConfig.use_namespace "prod" (loaded ("a.yaml", Sample.doc_a), Sample.disk_a)
           = (Ok (), (loaded ("a.yaml", d'), w'))
    ∧ KubeConfig.current_namespace (loaded ("a.yaml", d')) = Ok (YStr "prod").
Proof.
  apply (use_namespace_then_current_namespace "a.yaml" Sample.doc_a "prod" Sample.disk_a).
  apply (bool_decide_unpack _). vm_compute. exact I.
Defined.

(** ** Switching the current context of one config *)

(** X8. On a loaded config, [use_context(n)] without [allow_unknown] sets
    the current context to a known name [n], changes nothing else in the
    document and enters [save]; for an unknown name it raises the
    not-found [ValueError] with the config and the world as before. *)
Theorem use_context_strict p d n w :
  (n ∈ names (Doc.contexts d) →
     ∃ d', KubeConfig.use_context n false (loaded (p, d), w)
           = (Ok (), (loaded (p, d'), logged (SaveCalled p) w))
       ∧ KubeConfig.current_context (loaded (p, d')) = Ok n
       ∧ Doc.set_current_context (Doc.current_context d) d' = d)
  ∧ (n ∉ names (Doc.contexts d) →
     KubeConfig.use_context n false (loaded (p, d), w)
     = (Raise (ValueError ("Context " +:+ n +:+ " not found")), (loaded (p, d), w))).
Proof.
  split; [|apply use_context_unknown].
  intros Hn. eexists. split; [by apply use_context_known|]. split; [done|by destruct d].
Qed.

Lemma use_context_strict_witness :
  KubeConfig.use_context "ctx-b" false (loaded ("a.yaml", Sample.doc_a), Sample.disk_a)
  = (Raise (ValueError "Context ctx-b not found"),
     (loaded ("a.yaml", Sample.doc_a), Sample.disk_a))
  ∧ ∃ d', KubeConfig.use_context "ctx-a" false (loaded ("a.yaml", Sample.doc_dangling), Sample.disk_a)
          = (Ok (), (loaded ("a.yaml", d'), logged (SaveCalled "a.yaml") Sample.disk_a))
      ∧ KubeConfig.current_context (loaded ("a.yaml", d')) = Ok "ctx-a".
Proof.
  split.
  - apply (proj2 (use_context_strict "a.yaml" Sample.doc_a "ctx-b" Sample.disk_a)).
    apply (bool_decide_unpack _). vm_compute. exact I.
  - destruct (proj1 (use_context_strict "a.yaml" Sample.doc_dangling "ctx-a" Sample.disk_a))
      as (d' & Hrun & Hcur & _).
    { apply (bool_decide_unpack _). vm_compute. exact I. }
    exists d'. split; [exact Hrun|exact Hcur].
Defined.

(** X9. With [allow_unknown], [use_context(n)] accepts any name; when [n]
    is not one of the contexts, the config is left with a current context
    on which [current_namespace] raises the not-found [ValueError]. *)
Theorem use_context_allow_unknown_dangles p d n w :
  ∃ d', KubeConfig.use_context n true (loaded (p, d), w)
        = (Ok (), (loaded (p, d'), logged (SaveCalled p) w))
    ∧ KubeConfig.current_context (loaded (p, d')) = Ok n
    ∧ (n ∉ names (Doc.contexts d) →
       KubeConfig.current_namespace (loaded (p, d'))
       = Raise (ValueError ("Context " +:+ n +:+ " not found"))).
Proof.
  eexists. split; [apply use_context_allow_unknown|]. split; [done|].
  intros Hn. rewrite current_namespace_loaded. cbn [Doc.current_context Doc.contexts
    Doc.set_current_context]. by rewrite lookup_by_name_absent.
Qed.

Lemma use_context_allow_unknown_dangles_witness :
  ∃ d', KubeConfig.use_context "gone" true (loaded ("a.yaml", Sample.doc_a), Sample.disk_a)
        = (Ok (), (loaded ("a.yaml", d'), logged (SaveCalled "a.yaml") Sample.disk_a))
    ∧ KubeConfig.current_namespace (loaded ("a.yaml", d'))
      = Raise (ValueError "Context gone not found").
Proof.
  destruct (use_context_allow_unknown_dangles "a.yaml" Sample.doc_a "gone" Sample.disk_a)
    as (d' & Hrun & _ & Hns).
  exists d'. split; [exact Hrun|]. apply Hns.
  apply (bool_decide_unpack _). vm_compute. exact I.
Defined.

(** ** More on renaming *)

Lemma rename_first_absent old new cs : old ∉ names cs → rename_first old new cs = cs.
Proof.
  induction cs as [|c cs IH]; [done|]. intros [Hne Hn]%not_elem_of_cons.
  cbn. rewrite decide_False by (by intros <-). by rewrite IH.
Qed.

Lemma rename_first_back old new cs :
  new ∉ names cs → rename_first new old (rename_first old new cs) = cs.
Proof.
  induction cs as [|[k v] cs IH]; [done|]. intros [Hne Hn]%not_elem_of_cons.
  cbn in Hne. cbn. destruct (decide (k = old)) as [->|Hk]; cbn.
  - by rewrite decide_True.
  - rewrite decide_False by congruence. by rewrite IH.
Qed.

(** X10. Renaming a context to a name not yet in use and renaming it back
    restores the document, provided the current context was not that
    unused name. *)
Theorem rename_context_round_trip p d old new w :
  old ∈ names (Doc.contexts d) →
  new ∉ names (Doc.contexts d) →
  Doc.current_context d ≠ new →
  ∃ d1 w1 w2,
    KubeConfig.rename_context old new (loaded (p, d), w) = (Ok (), (loaded (p, d1), w1))
    ∧ KubeConfig.rename_context new old (loaded (p, d1), w1) = (Ok (), (loaded (p, d), w2)).
Proof.
  intros Hold Hnew Hcur. eexists _, _, _. split; [by apply rename_context_run|].
  rewrite rename_context_run.
  - rewrite renamed_doc_contexts, rename_first_back by done.
    f_equal. f_equal. f_equal. unfold renamed_doc.
    destruct (decide (Doc.current_context d = old)) as [Hc|Hc]; cbn.
    + rewrite decide_True by done. destruct d; cbn in *. by subst.
    + rewrite decide_False by done. by destruct d.
  - rewrite renamed_doc_contexts. by apply rename_first_names.
Qed.

Lemma rename_context_round_trip_witness :
  ∃ d1 w1 w2,
    KubeConfig.rename_context "ctx-a" "main" (loaded ("a.yaml", Sample.doc_a), Sample.disk_a)
    = (Ok (), (loaded ("a.yaml", d1), w1))
    ∧ KubeConfig.rename_context "main" "ctx-a" (loaded ("a.yaml", d1), w1)
      = (Ok (), (loaded ("a.yaml", Sample.doc_a), w2)).
Proof.
  apply (rename_context_round_trip "a.yaml" Sample.doc_a "ctx-a" "main" Sample.disk_a).
  - apply (bool_decide_unpack _). vm_compute. exact I.
  - apply (bool_decide_unpack _). vm_compute. exact I.
  - discriminate.
Defined.

Lemma names_app_cons {V} (l1 l2 : list (entry V)) n v :
  names (l1 ++ Entry n v :: l2) = names l1 ++ n :: names l2.
Proof. unfold names. by rewrite fmap_app, fmap_cons. Qed.

(** X11. After a context is renamed to a name not yet in use,
    [get_context] on the new name returns what it returned on the old
    one; when names were distinct, the old name is no longer found. *)
Theorem rename_context_then_lookup p d old new w :
  old ∈ names (Doc.contexts d) →
  new ∉ names (Doc.contexts d) →
  ∃ d' w', KubeConfig.rename_context old new (loaded (p, d), w)
           = (Ok (), (loaded (p, d'), w'))
    ∧ KubeConfig.get_context new (loaded (p, d')) = KubeConfig.get_context old (loaded (p, d))
    ∧ (NoDup (names (Doc.contexts d)) →
       KubeConfig.get_context old (loaded (p, d'))
       = Raise (ValueError ("Context " +:+ old +:+ " not found"))).
Proof.
  intros Hold Hnew. eexists _, _. split; [by apply rename_context_run|].
  unfold KubeConfig.get_context. cbn. rewrite renamed_doc_contexts.
  destruct (first_named_split _ _ Hold) as (l1 & v & l2 & Hd & Hl1).
  rewrite Hd in Hnew |- *. rewrite rename_first_split by done.
  rewrite names_app_cons in Hnew.
  apply not_elem_of_app in Hnew as [Hn1 [Hne Hn2]%not_elem_of_cons].
  split.
  - by rewrite !lookup_by_name_first.
  - rewrite names_app_cons. intros (_ & _ & Hnd)%NoDup_app.
    apply NoDup_cons in Hnd as [Hl2 _].
    apply lookup_by_name_absent. rewrite names_app_cons.
    apply not_elem_of_app. split; [done|]. apply not_elem_of_cons. split; [congruence|done].
Qed.

Lemma rename_context_then_lookup_witness :
  ∃ d' w', KubeConfig.rename_context "ctx-a" "main" (loaded ("a.yaml", Sample.doc_a), Sample.disk_a)
           = (Ok (), (loaded ("a.yaml", d'), w'))
    ∧ KubeConfig.get_context "main" (loaded ("a.yaml", d'))
      = Ok (Sample.binding "c1" "admin")
    ∧ KubeConfig.get_context "ctx-a" (loaded ("a.yaml", d'))
      = Raise (ValueError "Context ctx-a not found").
Proof.
  destruct (rename_context_then_lookup "a.yaml" Sample.doc_a "ctx-a" "main" Sample.disk_a)
    as (d' & w' & Hrun & Hnew & Hold).
  - apply (bool_decide_unpack _). vm_compute. exact I.
  - apply (bool_decide_unpack _). vm_compute. exact I.
  - exists d', w'. split; [exact Hrun|]. split; [exact Hnew|].
    apply Hold. apply NoDup_singleton.
Defined.

(** X12. [rename_context] does not check the new name: on a document with
    pairwise distinct context names it keeps the number of contexts, and
    the names stay pairwise distinct exactly when the new name was not
    already in use. *)
Theorem rename_context_keeps_names_distinct p d old new w :
  NoDup (names (Doc.contexts d)) →
  old ∈ names (Doc.contexts d) →
  old ≠ new →
  ∃ d' w', KubeConfig.rename_context old new (loaded (p, d), w)
           = (Ok (), (loaded (p, d'), w'))
    ∧ length (Doc.contexts d') = length (Doc.contexts d)
    ∧ (NoDup (names (Doc.contexts d')) ↔ new ∉ names (Doc.contexts d)).
Proof.
  intros Hnd Hold Hne. eexists _, _. split; [by apply rename_context_run|].
  rewrite renamed_doc_contexts.
  destruct (first_named_split _ _ Hold) as (l1 & v & l2 & Hd & Hl1).
  rewrite Hd in Hnd |- *. rewrite rename_first_split by done.
  split; [by rewrite !length_app|].
  rewrite !names_app_cons in *.
  apply NoDup_app in Hnd as (Hnd1 & Hdisj & Hnd2).
  apply NoDup_cons in Hnd2 as [Hold2 Hnd2].
  split.
  - intros (_ & Hdisj' & Hnd')%NoDup_app. apply NoDup_cons in Hnd' as [Hnew2 _].
    apply not_elem_of_app. split.
    + intros Hin. apply (Hdisj' _ Hin). left.
    + apply not_elem_of_cons. split; [congruence|done].
  - intros [Hn1 [_ Hn2]%not_elem_of_cons]%not_elem_of_app.
    apply NoDup_app. split_and!; [done| |by apply NoDup_cons].
    intros x Hx [->|Hx2]%elem_of_cons; [done|].
    apply (Hdisj _ Hx). by right.
Qed.

Lemma rename_context_keeps_names_distinct_witness :
  ∃ d' w', KubeConfig.rename_context "ctx-a" "main" (loaded ("a.yaml", Sample.doc_a), Sample.disk_a)
           = (Ok (), (loaded ("a.yaml", d'), w'))
    ∧ length (Doc.contexts d') = 1
    ∧ NoDup (names (Doc.contexts d')).
Proof.
  destruct (rename_context_keeps_names_distinct "a.yaml" Sample.doc_a "ctx-a" "main" Sample.disk_a)
    as (d' & w' & Hrun & Hlen & Hiff).
  - apply NoDup_singleton.
  - apply (bool_decide_unpack _). vm_compute. exact I.
  - discriminate.
  - exists d', w'. split; [exact Hrun|]. split; [exact Hlen|].
    apply Hiff. apply (bool_decide_unpack _). vm_compute. exact I.
Defined.

(** ** What the mutators of a loaded config never do *)

(** X13. On a loaded config, [use_context], [use_namespace] and
    [rename_context] never change any file, whether they succeed or
    raise. *)
Theorem mutators_leave_disk_untouched p d w n allow ns old new :
  files (KubeConfig.use_context n allow (loaded (p, d), w)).2.2 = files w
  ∧ files (KubeConfig.use_namespace ns (loaded (p, d), w)).2.2 = files w
  ∧ files (KubeConfig.rename_context old new (loaded (p, d), w)).2.2 = files w.
Proof.
  split_and!.
  - destruct allow; [by rewrite use_context_allow_unknown|].
    destruct (decide (n ∈ names (Doc.contexts d))).
    + by rewrite use_context_known.
    + by rewrite use_context_unknown.
  - by rewrite use_namespace_run.
  - destruct (decide (old ∈ names (Doc.contexts d))).
    + rewrite rename_context_run by done. apply renamed_world_files.
    + unfold KubeConfig.rename_context. run_monad. cbn.
      by rewrite rename_context_loop_absent.
Qed.

(** ** Awaiting and saving a set *)

Lemma on_member_run {A} i (m : M KubeConfig.obj A) configs k k' r w w' :
  configs !! i = Some k →
  m (k, w) = (r, (k', w')) →
  KubeConfigSet.on_member i m (KubeConfigSet.Make configs, w)
  = (r, (KubeConfigSet.Make (<[i := k']> configs), w')).
Proof.
  intros Hi Hm. unfold KubeConfigSet.on_member. cbn [KubeConfigSet._configs].
  by rewrite Hi, Hm.
Qed.

Lemma await_loadable w k :
  loadable w k → KubeConfig.__await__ (k, w) = (Ok (), (awaited w k, w)).
Proof.
  destruct k as [p [d|]]; [done|]. intros [[? [=]]|[data Hp]]. cbn in Hp.
  unfold KubeConfig.__await__, awaited. run_monad. cbn. by rewrite Hp.
Qed.

Lemma await_missing w p :
  files w !! p = None →
  KubeConfig.__await__ (KubeConfig.Make p None, w) = (Raise OSError, (KubeConfig.Make p None, w)).
Proof.
  intros Hp. unfold KubeConfig.__await__. run_monad. cbn. by rewrite Hp.
Qed.

Lemma set_await_loop w todo : ∀ pre snapshot,
  length snapshot = length todo →
  Forall (loadable w) todo →
  for_each (λ i (_ : KubeConfig.t), KubeConfigSet.on_member i KubeConfig.__await__)
    (length pre) snapshot (KubeConfigSet.Make (pre ++ todo), w)
  = (Ok (), (KubeConfigSet.Make (pre ++ (awaited w <$> todo)), w)).
Proof.
  induction todo as [|k todo IH]; intros pre [|s snapshot] Hlen Hall; try done.
  apply Forall_cons in Hall as [Hk Hall]. cbn [for_each fmap list_fmap].
  unfold mbind at 1, M_bind at 1, bind at 1.
  rewrite (on_member_run (length pre) _ _ k (awaited w k) (Ok ()) w w);
    [|apply list_lookup_middle, eq_refl|by apply await_loadable].
  rewrite insert_at_length.
  replace (S (length pre)) with (length (pre ++ [awaited w k]))
    by (rewrite length_app; cbn; lia).
  replace (pre ++ awaited w k :: todo) with ((pre ++ [awaited w k]) ++ todo)
    by (by rewrite <-app_assoc).
  rewrite IH; [|by injection Hlen|done]. by rewrite <-app_assoc.
Qed.

Lemma set_await_loop_missing w k post good : ∀ pre snapshot,
  length snapshot = length (good ++ k :: post) →
  Forall (loadable w) good →
  KubeConfig._raw k = None →
  files w !! KubeConfig.path k = None →
  for_each (λ i (_ : KubeConfig.t), KubeConfigSet.on_member i KubeConfig.__await__)
    (length pre) snapshot (KubeConfigSet.Make (pre ++ good ++ k :: post), w)
  = (Raise OSError, (KubeConfigSet.Make (pre ++ (awaited w <$> good) ++ k :: post), w)).
Proof.
  induction good as [|g good IH]; intros pre [|s snapshot] Hlen Hall Hraw Hfile; try done.
  - cbn [app for_each fmap list_fmap]. unfold mbind at 1, M_bind at 1, bind at 1.
    destruct k as [p raw]. cbn in Hraw, Hfile. subst raw.
    rewrite (on_member_run (length pre) _ _ (KubeConfig.Make p None) (KubeConfig.Make p None)
               (Raise OSError) w w);
      [|apply list_lookup_middle, eq_refl|by apply await_missing].
    by rewrite insert_at_length.
  - apply Forall_cons in Hall as [Hg Hall]. cbn [app for_each fmap list_fmap].
    unfold mbind at 1, M_bind at 1, bind at 1.
    rewrite (on_member_run (length pre) _ _ g (awaited w g) (Ok ()) w w);
      [|apply list_lookup_middle, eq_refl|by apply await_loadable].
    rewrite insert_at_length.
    replace (S (length pre)) with (length (pre ++ [awaited w g]))
      by (rewrite length_app; cbn; lia).
    replace (pre ++ awaited w g :: good ++ k :: post)
      with ((pre ++ [awaited w g]) ++ good ++ k :: post)
      by (by rewrite <-app_assoc).
    rewrite IH; [|by injection Hlen|done..]. by rewrite <-app_assoc.
Qed.

(** X2. Awaiting a set awaits its members in order against the same disk.
    When every member has content or an existing file, all are loaded;
    at the first member without content whose file is missing the set
    raises [OSError], with the members before it loaded and the rest
    untouched. *)
Theorem set_await_loads_in_order configs w :
  (Forall (loadable w) configs →
     KubeConfigSet.__await__ (KubeConfigSet.Make configs, w)
     = (Ok (), (KubeConfigSet.Make (awaited w <$> configs), w)))
  ∧ (∀ good k post,
       configs = good ++ k :: post →
       Forall (loadable w) good →
       KubeConfig._raw k = None →
       files w !! KubeConfig.path k = None →
       KubeConfigSet.__await__ (KubeConfigSet.Make configs, w)
       = (Raise OSError,
          (KubeConfigSet.Make ((awaited w <$> good) ++ k :: post), w))).
Proof.
  split.
  - intros Hall. unfold KubeConfigSet.__await__. run_monad. cbn [KubeConfigSet._configs].
    apply (set_await_loop w configs [] configs eq_refl Hall).
  - intros good k post -> Hall Hraw Hfile.
    unfold KubeConfigSet.__await__. run_monad. cbn [KubeConfigSet._configs].
    apply (set_await_loop_missing w k post good [] _ eq_refl Hall Hraw Hfile).
Qed.

Lemma set_await_loads_in_order_witness :
  KubeConfigSet.__await__
    (KubeConfigSet.Make [KubeConfig.Make "a.yaml" None; KubeConfig.Make "b.yaml" None],
     Sample.disk_a)
  = (Raise OSError,
     (KubeConfigSet.Make [loaded ("a.yaml", Sample.doc_a); KubeConfig.Make "b.yaml" None],
      Sample.disk_a))
  ∧ KubeConfigSet.__await__
      (KubeConfigSet.Make [KubeConfig.Make "a.yaml" None; loaded ("b.yaml", Sample.doc_b)],
       Sample.disk_a)
    = (Ok (), (config_set [("a.yaml", Sample.doc_a); ("b.yaml", Sample.doc_b)],
               Sample.disk_a)).
Proof.
  split.
  - apply (proj2 (set_await_loads_in_order _ Sample.disk_a)
             [KubeConfig.Make "a.yaml" None] (KubeConfig.Make "b.yaml" None) []);
      [reflexivity| |reflexivity|reflexivity].
    apply Forall_singleton. right. by eexists.
  - apply (proj1 (set_await_loads_in_order
             [KubeConfig.Make "a.yaml" None; loaded ("b.yaml", Sample.doc_b)] Sample.disk_a)).
    apply Forall_cons. split; [right; by eexists|].
    apply Forall_singleton. left. by eexists.
Defined.

Lemma saved_all_files docs w : files (saved_all docs w) = files w.
Proof.
  unfold saved_all. revert w. induction docs as [|pd docs IH]; intros w; [done|].
  cbn [foldl]. by rewrite IH.
Qed.

Lemma saved_all_trace docs w :
  trace (saved_all docs w) = trace w ++ ((λ pd, SaveCalled pd.1) <$> docs).
Proof.
  unfold saved_all. revert w. induction docs as [|pd docs IH]; intros w; cbn [foldl fmap list_fmap].
  - by rewrite app_nil_r.
  - rewrite IH. cbn [logged trace]. by rewrite <-app_assoc.
Qed.

Lemma set_save_loop todo : ∀ pre w,
  for_each (λ i (_ : KubeConfig.t), KubeConfigSet.on_member i KubeConfig.save)
    (length pre) (loaded <$> todo) (config_set (pre ++ todo), w)
  = (Ok (), (config_set (pre ++ todo), saved_all todo w)).
Proof.
  induction todo as [|[p d] todo IH]; intros pre w; [reflexivity|].
  cbn [for_each fmap list_fmap]. unfold mbind at 1, M_bind at 1, bind at 1.
  rewrite (on_member_loaded (length pre) _ _ (p, d) (p, d) (Ok ()) w (logged (SaveCalled p) w));
    [|apply list_lookup_middle, eq_refl|apply (save_loaded (p, d))].
  rewrite insert_at_length.
  replace (S (length pre)) with (length (pre ++ [(p, d)]))
    by (rewrite length_app; cbn; lia).
  replace (pre ++ (p, d) :: todo) with ((pre ++ [(p, d)]) ++ todo)
    by (by rewrite <-app_assoc).
  apply IH.
Qed.

(** X4. On a set of loaded members, [save] enters the [save] of every
    member in order, changes no member and writes no file. *)
Theorem set_save_writes_nothing docs w :
  ∃ w', KubeConfigSet.save (config_set docs, w) = (Ok (), (config_set docs, w'))
    ∧ files w' = files w
    ∧ trace w' = trace w ++ ((λ pd, SaveCalled pd.1) <$> docs).
Proof.
  exists (saved_all docs w). split.
  - unfold KubeConfigSet.save. run_monad. apply (set_save_loop docs [] w).
  - split; [apply saved_all_files|apply saved_all_trace].
Qed.

(** X14. On a set of loaded members, [use_namespace(ns)] always succeeds:
    in every member the contexts named as the set's current context get
    [namespace] set to [ns], every member's [save] is entered in order,
    no file is written and the set's current context is unchanged. *)
Theorem set_use_namespace_marks_every_member docs ns w :
  ∃ docs' w',
    KubeConfigSet.use_namespace ns (config_set docs, w) = (Ok (), (config_set docs', w'))
    ∧ docs' = mark_doc (set_current docs) ns <$> docs
    ∧ files w' = files w
    ∧ trace w' = trace w ++ ((λ pd, SaveCalled pd.1) <$> docs)
    ∧ KubeConfigSet.current_context (config_set docs')
      = KubeConfigSet.current_context (config_set docs).
Proof.
  eexists _, _. split; [apply set_use_namespace_run|]. split; [done|].
  split; [apply saved_all_files|]. split; [apply saved_all_trace|].
  by destruct docs.
Qed.

(** ** The empty set *)

(** X16. The set built from no arguments has no first member: its current
    context, path, preferences, raw projection and current namespace
    raise [IndexError], while its merged lists and extensions are empty,
    lookups and [use_context]/[rename_context] raise the not-found
    [ValueError], and [use_namespace] and [save] do nothing. *)
Theorem empty_set_edge_cases n ns old new w :
  let S := KubeConfigSet.Make [] in
  KubeConfigSet.__init__ [] = Ok S
  ∧ KubeConfigSet.current_context S = Raise IndexError
  ∧ KubeConfigSet.get_path (Some n) S = Raise IndexError
  ∧ KubeConfigSet.path S = Raise IndexError
  ∧ KubeConfigSet.preferences S = Raise IndexError
  ∧ KubeConfigSet.raw S = Raise IndexError
  ∧ KubeConfigSet.current_namespace S = Raise IndexError
  ∧ KubeConfigSet.clusters S = Ok []
  ∧ KubeConfigSet.users S = Ok []
  ∧ KubeConfigSet.contexts S = Ok []
  ∧ KubeConfigSet.extensions S = Ok []
  ∧ KubeConfigSet.get_context n S = Raise (ValueError ("Context " +:+ n +:+ " not found"))
  ∧ KubeConfigSet.use_context n (S, w)
    = (Raise (ValueError ("Context " +:+ n +:+ " not found")), (S, w))
  ∧ KubeConfigSet.rename_context old new (S, w)
    = (Raise (ValueError ("Context " +:+ old +:+ " not found")), (S, w))
  ∧ KubeConfigSet.use_namespace ns (S, w) = (Ok (), (S, w))
  ∧ KubeConfigSet.save (S, w) = (Ok (), (S, w)).
Proof.
  cbn zeta. split_and!; try reflexivity.
  unfold KubeConfigSet.get_path. rewrite truthy_Some.
  destruct (bool_decide (n = "")) eqn:Hn; cbn [negb]; [reflexivity|].
  cbn [default mbind result_bind from_option id]. rewrite truthy_Some, Hn. reflexivity.
Qed.

(** ** Members that were never awaited *)

Lemma comprehension_raises {A B} (f : A → result B) e k l :
  k ∈ l → f k = Raise e →
  (∀ x, x ∈ l → f x = Raise e ∨ ∃ y, f x = Ok y) →
  comprehension f l = Raise e.
Proof.
  induction l as [|x l IH]; intros Hk Hfk Hall.
  - by apply elem_of_nil in Hk.
  - cbn [comprehension]. destruct (Hall x) as [Hx|[y Hx]]; [left| |]; rewrite Hx; [done|].
    cbn [mbind result_bind]. apply elem_of_cons in Hk as [->|Hk]; [congruence|].
    rewrite IH; [done..|]. intros x' Hx'. apply Hall. by right.
Qed.

Lemma gather_unloaded {A} (field : Doc.t → list A) p configs :
  KubeConfig.Make p None ∈ configs →
  KubeConfigSet.gather (KubeConfig.raw_field field) (KubeConfigSet.Make configs)
  = Raise (TypeError "'NoneType' object is not subscriptable").
Proof.
  intros Hp. unfold KubeConfigSet.gather. cbn [KubeConfigSet._configs].
  rewrite (comprehension_raises _ (TypeError "'NoneType' object is not subscriptable")
             (KubeConfig.Make p None) configs); [done..|].
  intros [p' [d|]] _; [right; by eexists|by left].
Qed.

(** X17. If any member of a set has no content, wherever it stands, the
    merged clusters, users, contexts and extensions raise [TypeError],
    and so do [get_context] and [use_context], which changes nothing. *)
Theorem unloaded_member_breaks_projections p configs n w :
  let S := KubeConfigSet.Make configs in
  let e := TypeError "'NoneType' object is not subscriptable" in
  KubeConfig.Make p None ∈ configs →
  KubeConfigSet.clusters S = Raise e
  ∧ KubeConfigSet.users S = Raise e
  ∧ KubeConfigSet.contexts S = Raise e
  ∧ KubeConfigSet.extensions S = Raise e
  ∧ KubeConfigSet.get_context n S = Raise e
  ∧ KubeConfigSet.use_context n (S, w) = (Raise e, (S, w)).
Proof.
  cbn zeta. intros Hp.
  assert (KubeConfigSet.contexts (KubeConfigSet.Make configs)
          = Raise (TypeError "'NoneType' object is not subscriptable")) as Hctx.
  { unfold KubeConfigSet.contexts, KubeConfig.contexts. by rewrite (gather_unloaded _ p). }
  split_and!.
  - unfold KubeConfigSet.clusters, KubeConfig.clusters. by rewrite (gather_unloaded _ p).
  - unfold KubeConfigSet.users, KubeConfig.users. by rewrite (gather_unloaded _ p).
  - done.
  - unfold KubeConfigSet.extensions, KubeConfig.extensions.
    by apply (gather_unloaded (λ d, default [] (Doc.extensions d)) p).
  - unfold KubeConfigSet.get_context. by rewrite Hctx.
  - unfold KubeConfigSet.use_context. run_monad. by rewrite Hctx.
Qed.

Lemma unloaded_member_breaks_projections_witness :
  let S := KubeConfigSet.Make [loaded ("a.yaml", Sample.doc_a); KubeConfig.Make "b.yaml" None] in
  KubeConfigSet.contexts S = Raise (TypeError "'NoneType' object is not subscriptable")
  ∧ KubeConfigSet.use_context "ctx-a" (S, Sample.disk_a)
    = (Raise (TypeError "'NoneType' object is not subscriptable"), (S, Sample.disk_a)).
Proof.
  cbn zeta.
  destruct (unloaded_member_breaks_projections "b.yaml"
              [loaded ("a.yaml", Sample.doc_a); KubeConfig.Make "b.yaml" None]
              "ctx-a" Sample.disk_a) as (_ & _ & Hc & _ & _ & Hu).
  - right. left.
  - split; [exact Hc|exact Hu].
Defined.

(** ** The merged lists *)

Lemma names_pack {V} (d : list (string * V)) : names (dict_list_pack d) = d.*1.
Proof.
  unfold names, dict_list_pack, PyDict.items. rewrite <-list_fmap_compose.
  by apply list_fmap_ext.
Qed.

Lemma elem_of_concat_inv {A} (x : A) (ls : list (list A)) :
  x ∈ concat ls → ∃ l, l ∈ ls ∧ x ∈ l.
Proof.
  induction ls as [|l ls IH]; cbn; intros Hx.
  - by apply elem_of_nil in Hx.
  - apply elem_of_app in Hx as [Hx|Hx].
    + exists l. split; [left|done].
    + destruct (IH Hx) as (l' & Hl' & Hx'). exists l'. split; [by right|done].
Qed.

Lemma merged_NoDup {V} (field : Doc.t → list (entry V)) docs :
  NoDup (names (merged field docs)).
Proof.
  unfold merged. rewrite names_pack. apply NoDup_keys_foldl. constructor.
Qed.

Lemma names_unpack {V} (l : list (entry V)) n :
  n ∈ (list_dict_unpack l).*1 ↔ n ∈ names l.
Proof.
  split; [|apply keys_unpack_names].
  intros Hn. destruct (decide (n ∈ names l)) as [|Hnot]; [done|].
  exfalso. revert Hn. apply get_None_keys.
  unfold list_dict_unpack. by rewrite get_foldl, last_value_None.
Qed.

Lemma merged_names {V} (field : Doc.t → list (entry V)) docs n :
  n ∈ names (merged field docs) ↔ ∃ pd, pd ∈ docs ∧ n ∈ names (field pd.2).
Proof.
  split.
  - unfold merged. rewrite names_pack, names_unpack. unfold names.
    intros (e & -> & He)%list_elem_of_fmap.
    apply elem_of_concat_inv in He as (l & Hl & He).
    apply list_elem_of_fmap in Hl as (pd & -> & Hpd).
    exists pd. split; [done|]. apply list_elem_of_fmap. by exists e.
  - intros (pd & Hpd & Hn). by apply (names_merged field docs pd).
Qed.

(** X18. With the merge utility as the spec describes it, the merged
    clusters, users and contexts of a set of loaded members have pairwise
    distinct names, and a name is in a merged list exactly when some
    member's list has it. *)
Theorem merged_lists_have_distinct_names docs :
  ∃ cl us cs,
    KubeConfigSet.clusters (config_set docs) = Ok cl
    ∧ KubeConfigSet.users (config_set docs) = Ok us
    ∧ KubeConfigSet.contexts (config_set docs) = Ok cs
    ∧ NoDup (names cl) ∧ NoDup (names us) ∧ NoDup (names cs)
    ∧ (∀ n, n ∈ names cl ↔ ∃ pd, pd ∈ docs ∧ n ∈ names (Doc.clusters pd.2))
    ∧ (∀ n, n ∈ names us ↔ ∃ pd, pd ∈ docs ∧ n ∈ names (Doc.users pd.2))
    ∧ (∀ n, n ∈ names cs ↔ ∃ pd, pd ∈ docs ∧ n ∈ names (Doc.contexts pd.2)).
Proof.
  eexists _, _, _.
  split; [apply clusters_loaded|]. split; [apply users_loaded|].
  split; [apply contexts_loaded|].
  split_and!; try apply merged_NoDup; intros n; apply merged_names.
Qed.

Lemma lookup_by_name_pack {V} what n (d : list (string * V)) :
  KubeConfig.lookup_by_name what n (dict_list_pack d)
  = from_option Ok (Raise (ValueError (what +:+ " " +:+ n +:+ " not found")))
      (PyDict.get n d).
Proof.
  unfold dict_list_pack, PyDict.items.
  induction d as [|[k v] d IH]; [done|]. cbn.
  destruct (decide (k = n)); [done|apply IH].
Qed.

Lemma lookup_by_name_merged {V} what n (l : list (entry V)) :
  KubeConfig.lookup_by_name what n (dict_list_pack (list_dict_unpack l))
  = from_option Ok (Raise (ValueError (what +:+ " " +:+ n +:+ " not found")))
      (last_value n l).
Proof.
  rewrite lookup_by_name_pack. unfold list_dict_unpack. rewrite get_foldl.
  by destruct (last_value n l).
Qed.

(** X19. With the merge utility as the spec describes it, the set's
    [get_context], [get_cluster] and [get_user] return the value of the
    last entry with the name over all members in order (a single config
    returns the first), and raise the not-found [ValueError] when no
    member has the name. *)
Theorem set_getters_return_last_definition docs n :
  KubeConfigSet.get_context n (config_set docs)
  = from_option Ok (Raise (ValueError ("Context " +:+ n +:+ " not found")))
      (last_value n (concat ((λ pd, Doc.contexts pd.2) <$> docs)))
  ∧ KubeConfigSet.get_cluster n (config_set docs)
    = from_option Ok (Raise (ValueError ("Cluster " +:+ n +:+ " not found")))
        (last_value n (concat ((λ pd, Doc.clusters pd.2) <$> docs)))
  ∧ KubeConfigSet.get_user n (config_set docs)
    = from_option Ok (Raise (ValueError ("User " +:+ n +:+ " not found")))
        (last_value n (concat ((λ pd, Doc.users pd.2) <$> docs))).
Proof.
  unfold KubeConfigSet.get_context, KubeConfigSet.get_cluster, KubeConfigSet.get_user.
  rewrite contexts_loaded, clusters_loaded, users_loaded. cbn [mbind result_bind].
  unfold merged. by rewrite !lookup_by_name_merged.
Qed.

(** ** Extensions *)

(** X20. The extensions of a set are the members' extensions joined in
    member order, with nothing removed: the extensions of a set split in
    two are those of the first part followed by those of the second, and
    a one-member set has the member's own extensions. *)
Theorem extensions_are_concatenated docs1 docs2 p d :
  ∃ e1 e2,
    KubeConfigSet.extensions (config_set docs1) = Ok e1
    ∧ KubeConfigSet.extensions (config_set docs2) = Ok e2
    ∧ KubeConfigSet.extensions (config_set (docs1 ++ docs2)) = Ok (e1 ++ e2)
    ∧ KubeConfigSet.extensions (config_set [(p, d)])
      = KubeConfig.extensions (loaded (p, d)).
Proof.
  eexists _, _. rewrite !extensions_loaded. split; [done|]. split; [done|]. split.
  - unfold extensions_of_all. by rewrite fmap_app, concat_app.
  - unfold extensions_of_all. cbn. by rewrite app_nil_r.
Qed.

(** ** Round trips through the set *)

Lemma last_value_mark cur ns (l : list (entry ctxspec)) :
  last_value cur (mark_namespace cur ns <$> l)
  = (λ v, <["namespace" := YStr ns]> v) <$> last_value cur l.
Proof.
  induction l as [|c l IH]; [done|].
  cbn [fmap list_fmap last_value]. rewrite IH.
  destruct (last_value cur l); [done|]. cbn [fmap option_fmap option_map].
  assert (name (mark_namespace cur ns c) = name c) as ->
    by (unfold mark_namespace; by case_decide).
  destruct (decide (name c = cur)); [|done].
  unfold mark_namespace. by rewrite decide_True.
Qed.

Lemma contexts_of_marked cur ns docs :
  concat ((λ pd, Doc.contexts pd.2) <$> (mark_doc cur ns <$> docs))
  = mark_namespace cur ns <$> concat ((λ pd, Doc.contexts pd.2) <$> docs).
Proof.
  induction docs as [|pd docs IH]; [done|].
  cbn [fmap list_fmap concat]. rewrite fmap_app. by rewrite <-IH.
Qed.

(** X21. With the merge utility as the spec describes it: on a set of
    loaded members whose current context is a name of the merged context
    list, [current_namespace] after [use_namespace(ns)] is [ns]. *)
Theorem set_use_namespace_then_current_namespace docs cs cur ns w :
  KubeConfigSet.current_context (config_set docs) = Ok cur →
  KubeConfigSet.contexts (config_set docs) = Ok cs →
  cur ∈ names cs →
  ∃ S' w', KubeConfigSet.use_namespace ns (config_set docs, w) = (Ok (), (S', w'))
    ∧ KubeConfigSet.current_namespace S' = Ok (YStr ns).
Proof.
  intros Hcur Hcs Hin. rewrite contexts_loaded in Hcs. injection Hcs as <-.
  destruct docs as [|pd docs]; [done|].
  rewrite current_context_loaded in Hcur. injection Hcur as <-.
  eexists _, _. split; [apply set_use_namespace_run|].
  unfold KubeConfigSet.current_namespace. cbn [fmap list_fmap].
  rewrite (current_context_loaded (mark_doc _ ns pd) (mark_doc _ ns <$> docs)).
  cbn [mbind result_bind]. unfold KubeConfigSet.get_context.
  rewrite (contexts_loaded (mark_doc _ ns pd :: (mark_doc _ ns <$> docs))).
  cbn [mbind result_bind]. unfold merged.
  change (mark_doc (set_current (pd :: docs)) ns pd
          :: (mark_doc (set_current (pd :: docs)) ns <$> docs))
    with (mark_doc (set_current (pd :: docs)) ns <$> pd :: docs).
  rewrite contexts_of_marked, lookup_by_name_merged.
  change (Doc.current_context (mark_doc (set_current (pd :: docs)) ns pd).2)
    with (Doc.current_context pd.2).
  change (set_current (pd :: docs)) with (Doc.current_context pd.2).
  rewrite last_value_mark.
  assert (Doc.current_context pd.2
          ∈ names (concat ((λ pd, Doc.contexts pd.2) <$> pd :: docs))) as Hl.
  { apply merged_names in Hin as (pd' & Hpd' & Hn). unfold names.
    apply list_elem_of_fmap in Hn as (e & He & Hn). apply list_elem_of_fmap.
    exists e. split; [done|]. apply (elem_of_concat _ (Doc.contexts pd'.2)); [done|].
    apply list_elem_of_fmap. by exists pd'. }
  destruct (last_value_is_Some _ _ Hl) as [v ->].
  cbn. by rewrite lookup_insert_eq.
Qed.

Lemma set_use_namespace_then_current_namespace_witness :
  ∃ S' w', KubeConfigSet.use_namespace "prod"
             (config_set [("a.yaml", Sample.doc_a); ("b.yaml", Sample.doc_b)], Sample.disk_a)
           = (Ok (), (S', w'))
    ∧ KubeConfigSet.current_namespace S' = Ok (YStr "prod").
Proof.
  apply (set_use_namespace_then_current_namespace
           [("a.yaml", Sample.doc_a); ("b.yaml", Sample.doc_b)] _ "ctx-a" "prod" Sample.disk_a
           eq_refl (contexts_loaded _)).
  apply (bool_decide_unpack _). vm_compute. exact I.
Defined.

Lemma route_defined n docs pd :
  pd ∈ docs → n ∈ names (Doc.contexts pd.2) → is_Some (route n docs).
Proof.
  intros Hpd Hn. unfold route. induction Hpd as [pd docs|pd pd' docs _ IH]; cbn [find].
  - unfold defines_context. rewrite bool_decide_true by done. by eexists.
  - destruct (defines_context n pd'); [by eexists|]. by apply IH.
Qed.

(** X22. On a set of loaded members, after [use_context(n)] for a non-empty
    merged name [n], the current context is [n] and [path] is the path of
    the first member whose contexts list has [n], although the name was
    written into the first member. *)
Theorem set_use_context_then_path docs cs n w :
  KubeConfigSet.contexts (config_set docs) = Ok cs →
  n ∈ names cs →
  n ≠ "" →
  ∃ S' w' p, KubeConfigSet.use_context n (config_set docs, w) = (Ok (), (S', w'))
    ∧ KubeConfigSet.current_context S' = Ok n
    ∧ KubeConfigSet.path S' = Ok p
    ∧ route n docs = Some p.
Proof.
  intros Hcs Hin Hne. rewrite contexts_loaded in Hcs. injection Hcs as <-.
  destruct docs as [|[p0 d0] docs]; [by apply elem_of_nil in Hin|].
  apply merged_names in Hin as (pd & Hpd & Hn).
  destruct (route_defined n _ pd Hpd Hn) as [p Hp].
  eexists _, _, p. split.
  { apply set_use_context_present. apply merged_names. by exists pd. }
  split; [done|]. split; [|done].
  unfold KubeConfigSet.path, KubeConfigSet.get_path.
  change (KubeConfigSet.truthy None) with false. cbv iota.
  rewrite (current_context_loaded (p0, Doc.set_current_context n d0) docs).
  cbn [mbind result_bind snd Doc.current_context Doc.set_current_context].
  rewrite truthy_Some, bool_decide_false by done. cbn [negb].
  etrans; [apply (get_path_resolved (p0, Doc.set_current_context n d0) docs n)|].
  assert (route n ((p0, Doc.set_current_context n d0) :: docs)
          = route n ((p0, d0) :: docs)) as ->.
  { unfold route. cbn [find]. unfold defines_context at 1 3. cbn [snd Doc.contexts
      Doc.set_current_context]. by case_bool_decide. }
  by rewrite Hp.
Qed.

Lemma set_use_context_then_path_witness :
  ∃ S' w' p, KubeConfigSet.use_context "ctx-b"
               (config_set [("a.yaml", Sample.doc_a); ("b.yaml", Sample.doc_b)], Sample.disk_a)
             = (Ok (), (S', w'))
    ∧ KubeConfigSet.current_context S' = Ok "ctx-b"
    ∧ KubeConfigSet.path S' = Ok p
    ∧ route "ctx-b" [("a.yaml", Sample.doc_a); ("b.yaml", Sample.doc_b)] = Some p.
Proof.
  apply (set_use_context_then_path
           [("a.yaml", Sample.doc_a); ("b.yaml", Sample.doc_b)] _ "ctx-b" Sample.disk_a
           (contexts_loaded _)).
  - apply (bool_decide_unpack _). vm_compute. exact I.
  - discriminate.
Defined.
